(** * statsintro-python-2e: three quantlets, embedded and checked

    The repository holds three stand-alone scripts:

    - [ISP_checkNormality.py]  (function [check_normality]),
    - [ISP_oneGroup.py]        (functions [check_mean], [compareWithNormal]),
    - [ISP_TimeSeries.py]      (functions [get_CO2_data], [acf_and_pacf],
                                [fit_ARIMA_models]).

    Every function is a straight sequence of calls into numpy, scipy,
    pandas, statsmodels and matplotlib, with a little arithmetic and some
    printing in between.  The embedding keeps that shape: a script function
    is a term of [prog], a small command language with library calls,
    [print], [raise] and [try/except]; the libraries are not modelled, they
    are an arbitrary handler the interpreter [run] is given.  Numbers are
    binary64 floats ([PrimFloat]), arrays are lists of them.

    The confidence interval is studied twice.  On doubles, as the script
    computes it ([plus_minus], modules [Binary64] and [Binary64Facts]):
    the rounding of every operation is that of the standard library's
    specification of binary64.  And over the real numbers (module
    [Exact]), where the Student-t distribution is a frozen distribution
    object with a cdf and a quantile function and the coverage of the
    interval can be spoken of.

    [explain_power] of [ISP_oneGroup.py] draws a sample and does
    arithmetic on library results only; it is read over the reals as well
    (module [ExactPower]). *)

From Stdlib Require Import List String Ascii ZArith Bool Lia PrimFloat Uint63.
From Stdlib Require Import Reals Lra.
From Stdlib Require SpecFloat FloatOps FloatAxioms.
Import ListNotations.

Set Warnings "-inexact-float".
Local Open Scope string_scope.
Local Open Scope list_scope.

(* ------------------------------------------------------------------ *)
(** ** Python values the scripts handle *)

(** A one-dimensional float64 array. *)
Definition ndarray := list float.

(** An object owned by a library (DataFrame, column, decomposition result,
    model, fitted model, summary, frozen distribution): the scripts only
    pass such objects back to the library. *)
Inductive pyobj := PyObj (id : positive).

(** What [ARIMA] and [plot_acf] are given: a library object or an array. *)
Inductive endog :=
| OfObj (o : pyobj)
| OfArray (a : ndarray).

(** An exception: the classes of its type, most derived first, and its
    message. *)
Record exn := Exception { exc_mro : list string; exc_msg : string }.

Definition isinstance (e : exn) (cls : string) : bool :=
  existsb (String.eqb cls) (exc_mro e).

(** A pandas Series used as a display table: labels and values, in
    insertion order.  [pd.Series(np.float64)] holds the type object itself
    under label 0. *)
Inductive label := LInt (z : Z) | LStr (s : string).
Inductive sval := SType (name : string) | SFloat (x : float).
Definition Series := list (label * sval).

Definition label_eqb (a b : label) : bool :=
  match a, b with
  | LInt x, LInt y => Z.eqb x y
  | LStr x, LStr y => String.eqb x y
  | _, _ => false
  end.

Fixpoint series_get (s : Series) (k : label) : option sval :=
  match s with
  | [] => None
  | (k', v) :: s' => if label_eqb k' k then Some v else series_get s' k
  end.

(** [s[k] = v]: overwrite in place, or enlarge at the end. *)
Fixpoint series_set (s : Series) (k : label) (v : sval) : Series :=
  match s with
  | [] => [(k, v)]
  | (k', v') :: s' =>
      if label_eqb k' k then (k', v) :: s' else (k', v') :: series_set s' k v
  end.

(** Element-wise numpy arithmetic on float64 arrays. *)
Definition arr_sub_scalar (a : ndarray) (c : float) : ndarray :=
  map (fun x => PrimFloat.sub x c) a.
Definition arr_div_scalar (a : ndarray) (c : float) : ndarray :=
  map (fun x => PrimFloat.div x c) a.
Definition arr_mul_scalar (a : ndarray) (c : float) : ndarray :=
  map (fun x => PrimFloat.mul x c) a.
Definition scalar_mul_arr (c : float) (a : ndarray) : ndarray :=
  map (fun x => PrimFloat.mul c x) a.
Definition scalar_add_arr (c : float) (a : ndarray) : ndarray :=
  map (fun x => PrimFloat.add c x) a.
Definition arr_neg (a : ndarray) : ndarray := map PrimFloat.opp a.

(** [m + se*np.array([-1,1])*tq]: the product [se*array] first, then
    [*tq], then [m +], each element-wise. *)
Definition plus_minus (m se tq : float) : ndarray :=
  scalar_add_arr m
    (arr_mul_scalar (scalar_mul_arr se [(-1)%float; 1%float]) tq).

Definition len {A} (l : list A) : Z := Z.of_nat (List.length l).
Definition float_of_Z (z : Z) : float := PrimFloat.of_uint63 (Uint63.of_Z z).

(* ------------------------------------------------------------------ *)
(** ** Library calls *)

Inductive libcall : Type -> Type :=
(* numpy *)
| np_genfromtxt (fname delimiter : string) : libcall ndarray
| np_mean (a : ndarray) : libcall float
| np_std (a : ndarray) (ddof : Z) : libcall float
| np_random_seed (seed : Z) : libcall unit
| np_random_randn (n : Z) : libcall ndarray
| ndarray_len (a : ndarray) : libcall Z    (* len(a), numpy's __len__ *)
(* scipy.stats *)
| stats_t (df : Z) : libcall pyobj
| stats_norm (loc scale : float) : libcall pyobj
| rv_ppf (rv : pyobj) (q : float) : libcall float
| rv_rvs (rv : pyobj) (size : Z) : libcall ndarray
| stats_sem (a : ndarray) : libcall float
| stats_ttest_1samp (a : ndarray) (popmean : float) : libcall (float * float)
| stats_wilcoxon (x : ndarray) : libcall (float * float)
| stats_norm_rvs (loc scale : float) (size : Z) : libcall ndarray
| stats_norm_cdf (x loc scale : float) : libcall float
| stats_normaltest (a : ndarray) : libcall (float * float)
| stats_shapiro (a : ndarray) : libcall (float * float)
| stats_kstest (a : ndarray) (dist : string) : libcall (float * float)
(* statsmodels *)
| lilliefors (a : ndarray) : libcall (float * float)
| seasonal_decompose (x : pyobj) (model : string) (period : Z)
    (extrapolate_trend : string) : libcall pyobj
| get_resid (o : pyobj) : libcall pyobj
| plot_acf (x : endog) : libcall unit
| plot_pacf (x : endog) : libcall unit
| ARIMA (x : endog) (order : nat * nat * nat) (trend : option string)
    : libcall pyobj
| model_fit (m : pyobj) : libcall pyobj
| fit_summary (r : pyobj) : libcall pyobj
| ArmaProcess (ar ma : ndarray) : libcall pyobj
| generate_sample (p : pyobj) (nsample : Z) : libcall ndarray
(* pandas *)
| pd_read_csv (url : string) (skiprows : Z) (delim_whitespace : bool)
    (names : list string) : libcall pyobj
| df_head (df : pyobj) : libcall pyobj
| df_plot (df : pyobj) (x y : string) : libcall unit
| df_getitem (df : pyobj) (key : string) : libcall pyobj
| series_str (s : Series) : libcall string
| obj_str (o : pyobj) : libcall string
(* matplotlib, pingouin *)
| plt_hist (a : ndarray) : libcall unit
| plt_show : libcall unit
| plt_plot (y : endog) (fmt : option string) : libcall unit
| obj_plot (o : pyobj) : libcall unit
| pg_qqplot (a : ndarray) : libcall unit
(* the import machinery and the optional Utilities module *)
| import_from (module : string) (names : list string) : libcall unit
| ISP_showData (out_file : string) : libcall unit.

(* ------------------------------------------------------------------ *)
(** ** Commands *)

Inductive prog : Type -> Type :=
| Ret {A} (a : A) : prog A
| Bind {A B} (p : prog B) (k : B -> prog A) : prog A
| Call {A} (c : libcall A) : prog A
| Print (s : string) : prog unit
| Raise {A} (e : exn) : prog A
| TryExcept {A} (body : prog A) (cls : string) (handler : prog A) : prog A.

Declare Scope prog_scope.
Delimit Scope prog_scope with prog.
Notation "x <- p ;; k" := (Bind p (fun x => k))
  (at level 61, p at next level, right associativity) : prog_scope.
Notation "' pat <- p ;; k" := (Bind p (fun x => match x with pat => k end))
  (at level 61, pat pattern, p at next level, right associativity) : prog_scope.
Notation "p ;;; k" := (Bind p (fun _ : unit => k))
  (at level 61, right associativity) : prog_scope.

Local Open Scope prog_scope.

Definition when (b : bool) (p : prog unit) : prog unit :=
  if b then p else Ret tt.

(** [for x in l: body x] *)
Fixpoint for_each {A} (l : list A) (body : A -> prog unit) : prog unit :=
  match l with
  | [] => Ret tt
  | x :: l' => body x ;;; for_each l' body
  end.

(* ------------------------------------------------------------------ *)
(** ** Running a command against the libraries *)

Inductive result (A : Type) :=
| Returned (a : A)
| Raised (e : exn).
Arguments Returned {A} a.
Arguments Raised {A} e.

(** What an observer of the process sees: each library call with its
    outcome, and each line written to standard output. *)
Inductive event :=
| EvCall {B} (c : libcall B) (r : result B)
| EvOut (s : string).

Definition raised_in (ev : event) : option exn :=
  match ev with
  | EvCall _ (Raised e) => Some e
  | _ => None
  end.

Section Run.
(** The state of everything outside the script (files, network, the
    random generator, the figures on screen) and the libraries acting
    on it. *)
Context {W : Type}.
Variable lib : forall B, libcall B -> W -> result B * W.

Fixpoint run {A} (p : prog A) (w : W) : result A * W * list event :=
  match p in prog T return result T * W * list event with
  | Ret a => (Returned a, w, [])
  | Bind p1 k =>
      match run p1 w with
      | (Returned b, w1, tr1) =>
          let '(r, w2, tr2) := run (k b) w1 in (r, w2, tr1 ++ tr2)
      | (Raised e, w1, tr1) => (Raised e, w1, tr1)
      end
  | Call c => let (r, w1) := lib _ c w in (r, w1, [EvCall c r])
  | Print s => (Returned tt, w, [EvOut s])
  | Raise e => (Raised e, w, [])
  | TryExcept body cls handler =>
      match run body w with
      | (Raised e, w1, tr1) =>
          if isinstance e cls
          then let '(r, w2, tr2) := run handler w1 in (r, w2, tr1 ++ tr2)
          else (Raised e, w1, tr1)
      | done => done
      end
  end.
End Run.

Definition outcome {A W} (x : result A * W * list event) : result A :=
  fst (fst x).
Definition trace {A W} (x : result A * W * list event) : list event := snd x.

(* ------------------------------------------------------------------ *)
(** ** The scripts *)

(** Python's [format(x, spec)] on a float and on an int: built-ins, kept
    abstract. *)
Class Formatter := {
  format_float : string -> float -> string;
  format_int : string -> Z -> string
}.

Definition TypeError (msg : string) : exn :=
  Exception ["TypeError"; "Exception"; "BaseException"] msg.
Definition KeyError (msg : string) : exn :=
  Exception ["KeyError"; "LookupError"; "Exception"; "BaseException"] msg.

(** [s[key]] on the display table. *)
Definition series_getitem (s : Series) (key : string) : prog sval :=
  match series_get s (LStr key) with
  | Some v => Ret v
  | None => Raise (KeyError key)
  end.

(** [s[key] > c] on the display table. *)
Definition series_item_gt (s : Series) (key : string) (c : float) : prog bool :=
  match series_get s (LStr key) with
  | Some (SFloat x) => Ret (PrimFloat.ltb c x)
  | Some (SType _) =>
      Raise (TypeError "'>' not supported between instances of 'type' and 'float'")
  | None => Raise (KeyError key)
  end.

(** [float(a)] on an array, as numpy 1.x has it: a one-element array
    converts (since numpy 1.25 with a deprecation warning), for any other
    numpy raises this [TypeError]. *)
Definition float_of_array (a : ndarray) : prog float :=
  match a with
  | [v] => Ret v
  | _ => Raise (TypeError "only size-1 arrays can be converted to Python scalars")
  end.

(** [x[-k]] on a list known to hold at least [k] elements. *)
Definition from_end (x : list float) (k : nat) : float :=
  nth (List.length x - k) x 0%float.

Module ISP_oneGroup.
Section Functions.
Context `{Formatter}.

Definition check_mean : prog float :=
  let inFile := "altman_91.txt" in
  data <- Call (np_genfromtxt inFile ",") ;;
  myMean <- Call (np_mean data) ;;
  mySD <- Call (np_std data 1) ;;
  Print ("Mean and SD: " ++ format_float "4.2f" myMean ++ " and "
         ++ format_float "4.2f" mySD) ;;;
  (* Confidence intervals *)
  n <- Call (ndarray_len data) ;;
  tf <- Call (stats_t (n - 1)) ;;
  m <- Call (np_mean data) ;;
  se <- Call (stats_sem data) ;;
  tq <- Call (rv_ppf tf 0.975) ;;
  let ci := plus_minus m se tq in
  Print ("The confidence intervals are " ++ format_float "4.2f" (nth 0 ci 0%float)
         ++ " to " ++ format_float "4.2f" (nth 1 ci 0%float) ++ ".") ;;;
  (* Check if there is a significant difference relative to checkValue *)
  let checkValue := 7725%Z in
  '(t, prob) <- Call (stats_ttest_1samp data (float_of_Z checkValue)) ;;
  when (PrimFloat.ltb prob 0.05)
    (Print (format_int "4.2f" checkValue ++ " is significantly different "
            ++ "from the mean (p=" ++ format_float "5.3f" prob ++ ").")) ;;;
  '(rank, pVal) <-
    Call (stats_wilcoxon (arr_sub_scalar data (float_of_Z checkValue))) ;;
  let issignificant :=
    if PrimFloat.ltb pVal 0.05 then "unlikely" else "likely" in
  Print ("It is " ++ issignificant ++ " that the value is "
         ++ format_int "d" checkValue) ;;;
  Ret prob.

Definition compareWithNormal : prog float :=
  Call (np_random_seed 12345) ;;;
  normDist <- Call (stats_norm 7 3) ;;
  data <- Call (rv_rvs normDist 100) ;;
  let checkVal := 6.5%float in
  '(t, tProb) <- Call (stats_ttest_1samp data checkVal) ;;
  mmean <- Call (np_mean data) ;;
  mstd <- Call (np_std data 1) ;;
  c <- Call (stats_norm_cdf checkVal mmean
               (PrimFloat.div mstd (PrimFloat.sqrt (float_of_Z (len data))))) ;;
  let normProb := PrimFloat.mul c 2 in
  Print ("The probability from the t-test is " ++ "{tProb:5.4f}, "
         ++ ("and from the normal distribution "
             ++ format_float "5.4f" normProb)) ;;;
  Ret normProb.
End Functions.
End ISP_oneGroup.

Module ISP_checkNormality.
Section Functions.
Context `{Formatter}.

Definition check_normality (show_flag : bool) : prog sval :=
  let numData := 1000%Z in
  let myMean := 0%float in
  let mySD := 3%float in
  Call (np_random_seed 12345) ;;;
  data <- Call (stats_norm_rvs myMean mySD numData) ;;
  let fewData := firstn 100 data in
  when show_flag (Call (plt_hist data) ;;; Call plt_show) ;;;
  when show_flag (Call (pg_qqplot data) ;;; Call plt_show) ;;;
  let pVals : Series := [(LInt 0, SType "numpy.float64")] in
  let pFewVals : Series := [(LInt 0, SType "numpy.float64")] in
  '(_, p) <- Call (stats_normaltest data) ;;
  let pVals := series_set pVals (LStr "Omnibus") (SFloat p) in
  '(_, p) <- Call (stats_normaltest fewData) ;;
  let pFewVals := series_set pFewVals (LStr "Omnibus") (SFloat p) in
  '(_, p) <- Call (stats_shapiro data) ;;
  let pVals := series_set pVals (LStr "Shapiro-Wilk") (SFloat p) in
  '(_, p) <- Call (stats_shapiro fewData) ;;
  let pFewVals := series_set pFewVals (LStr "Shapiro-Wilk") (SFloat p) in
  '(_, p) <- Call (lilliefors data) ;;
  let pVals := series_set pVals (LStr "Lilliefors") (SFloat p) in
  '(_, p) <- Call (lilliefors fewData) ;;
  let pFewVals := series_set pFewVals (LStr "Lilliefors") (SFloat p) in
  m <- Call (np_mean data) ;;
  s <- Call (np_std data 1) ;;
  '(_, p) <- Call (stats_kstest (arr_div_scalar (arr_sub_scalar data m) s) "norm") ;;
  let pVals := series_set pVals (LStr "Kolmogorov-Smirnov") (SFloat p) in
  m <- Call (np_mean fewData) ;;
  s <- Call (np_std fewData 1) ;;
  '(_, p) <- Call (stats_kstest (arr_div_scalar (arr_sub_scalar fewData m) s) "norm") ;;
  let pFewVals := series_set pFewVals (LStr "Kolmogorov-Smirnov") (SFloat p) in
  Print ("p-values for all " ++ format_int "" (len data)
         ++ " data points: ----------------") ;;;
  txt <- Call (series_str pVals) ;;
  Print txt ;;;
  Print "p-values for the first 100 data points: ----------------" ;;;
  txt <- Call (series_str pFewVals) ;;
  Print txt ;;;
  normal <- series_item_gt pVals "Omnibus" 0.05 ;;
  when normal (Print "Data are normally distributed") ;;;
  series_getitem pVals "Kolmogorov-Smirnov".
End Functions.
End ISP_checkNormality.

Module ISP_TimeSeries.

(** The double-quote character, for the one message that holds it. *)
Definition dquote : string := String (ascii_of_nat 34) EmptyString.

(** Where [setFonts] and [showData] come from once the module is loaded. *)
Inductive style := FromUtilities | Fallback.

(** The guarded import at the head of the module. *)
Definition import_mystyle : prog style :=
  TryExcept
    (Call (import_from "ISP_mystyle" ["setFonts"; "showData"]) ;;;
     Ret FromUtilities)
    "ImportError"
    (Ret Fallback).

Definition showData (st : style) (out_file : string) : prog unit :=
  match st with
  | FromUtilities => Call (ISP_showData out_file)
  | Fallback => Call plt_show
  end.

Definition get_CO2_data : prog pyobj :=
  let url :=
    "https://www.esrl.noaa.gov/gmd/webdata/ccgg/trends/co2/co2_mm_mlo.txt" in
  df <- Call (pd_read_csv url 53 true
                ["year"; "month"; "time"; "co2"; "deseasoned";
                 "nr_days"; "std_days"; "uncertainty"]) ;;
  top <- Call (df_head df) ;;
  txt <- Call (obj_str top) ;;
  Print txt ;;;
  Call (df_plot df "time" "co2") ;;;
  Call plt_show ;;;
  Ret df.

Definition acf_and_pacf (st : style) (df : pyobj) : prog pyobj :=
  co2 <- Call (df_getitem df "co2") ;;
  result_add <- Call (seasonal_decompose co2 "additive" 12 "freq") ;;
  Call (obj_plot result_add) ;;;
  showData st "TSA_decomposition.jpg" ;;;
  resid <- Call (get_resid result_add) ;;
  Call (plt_plot (OfObj resid) (Some "-")) ;;;
  resid <- Call (get_resid result_add) ;;
  Call (plot_acf (OfObj resid)) ;;;
  showData st "TSA_acf.jpg" ;;;
  resid <- Call (get_resid result_add) ;;
  Call (plot_pacf (OfObj resid)) ;;;
  showData st "TSA_pacf.jpg" ;;;
  Ret result_add.

Definition orders : list (nat * nat * nat) :=
  [(1, 0, 1); (0, 0, 2)]%nat.

(** The body of [for order in orders:]. *)
Definition fit_one (seasonal_decomposition : pyobj) (order : nat * nat * nat)
  : prog unit :=
  resid <- Call (get_resid seasonal_decomposition) ;;
  model <- Call (ARIMA (OfObj resid) (1, 0, 1)%nat None) ;;
  fitted <- Call (model_fit model) ;;
  summary <- Call (fit_summary fitted) ;;
  txt <- Call (obj_str summary) ;;
  Print txt.

Definition fit_orders (seasonal_decomposition : pyobj) : prog unit :=
  for_each orders (fit_one seasonal_decomposition).

(** [for ii in range(n): x.append(x[-1] - 0.5*x[-2] + float(randn(1)))] *)
Fixpoint simulate_ar2 (n : nat) (x : list float) : prog (list float) :=
  match n with
  | O => Ret x
  | S n' =>
      let drift :=
        PrimFloat.sub (from_end x 1) (PrimFloat.mul 0.5 (from_end x 2)) in
      noise <- Call (np_random_randn 1) ;;
      e <- float_of_array noise ;;
      simulate_ar2 n' (x ++ [PrimFloat.add drift e])
  end.

Definition fit_ARIMA_models (seasonal_decomposition : pyobj) : prog unit :=
  fit_orders seasonal_decomposition ;;;
  (* Generate a clear ARIMA model, plot it, and fit it *)
  Print "Generate a clear ARIMA model, plot it" ;;;
  x <- simulate_ar2 200 [0%float; 0%float] ;;
  Call (plt_plot (OfArray x) None) ;;;
  Call plt_show ;;;
  Call (plot_acf (OfArray x)) ;;;
  Call plt_show ;;;
  model <- Call (ARIMA (OfArray x) (2, 0, 0)%nat None) ;;
  fitted <- Call (model_fit model) ;;
  summary <- Call (fit_summary fitted) ;;
  txt <- Call (obj_str summary) ;;
  Print txt ;;;
  Print ("And now with " ++ dquote ++ "statsmodels" ++ dquote ++ ":") ;;;
  (* Generate and fit an ARMA process with statsmodels *)
  Call (np_random_seed 12345) ;;;
  let arparams := [0.75%float; (-0.25)%float] in
  let maparams := [0.65%float; 0.35%float] in
  let ar := 1%float :: arr_neg arparams in
  let ma := 1%float :: maparams in
  arma_process <- Call (ArmaProcess ar ma) ;;
  y <- Call (generate_sample arma_process 250) ;;
  model <- Call (ARIMA (OfArray y) (2, 0, 2)%nat (Some "n")) ;;
  fit <- Call (model_fit model) ;;
  summary <- Call (fit_summary fit) ;;
  txt <- Call (obj_str summary) ;;
  Print txt.

(** [if __name__ == '__main__':] *)
Definition main : prog unit :=
  st <- import_mystyle ;;
  data <- get_CO2_data ;;
  decomposed <- acf_and_pacf st data ;;
  fit_ARIMA_models decomposed.

(** The orders the [ARIMA] constructor was given, in call order. *)
Definition arima_order (ev : event) : option (nat * nat * nat) :=
  match ev with
  | EvCall c _ =>
      match c with
      | ARIMA _ o _ => Some o
      | _ => None
      end
  | EvOut _ => None
  end.

Fixpoint arima_orders (tr : list event) : list (nat * nat * nat) :=
  match tr with
  | [] => []
  | ev :: tr' =>
      match arima_order ev with
      | Some o => o :: arima_orders tr'
      | None => arima_orders tr'
      end
  end.

End ISP_TimeSeries.

(* ------------------------------------------------------------------ *)
(** ** The confidence interval of [check_mean], in exact arithmetic

    Lines 35-42 of [ISP_oneGroup.py], with every float read as the real
    number it stands for and the library routines as their mathematical
    definitions. *)

Module Exact.
Local Open Scope R_scope.

(** A frozen scipy distribution, as far as the script uses one. *)
Record rv_frozen := { cdf : R -> R; ppf : R -> R }.

(** A continuous distribution that is symmetric about zero, as Student's
    t is for every number of degrees of freedom. *)
Record symmetric_continuous (d : rv_frozen) : Prop := {
  cdf_mono : forall x y, x <= y -> cdf d x <= cdf d y;
  cdf_sym : forall x, cdf d (- x) = 1 - cdf d x;
  cdf_ppf : forall q, 0 < q < 1 -> cdf d (ppf d q) = q
}.

Definition total (a : list R) : R := fold_right Rplus 0 a.

(** [np.mean(a)] *)
Definition mean (a : list R) : R := total a / INR (List.length a).

(** [np.std(a, ddof)] *)
Definition std (a : list R) (ddof : nat) : R :=
  sqrt (total (map (fun x => Rsqr (x - mean a)) a)
        / (INR (List.length a) - INR ddof)).

(** [stats.sem(a)], whose default is [ddof=1]. *)
Definition sem (a : list R) : R := std a 1 / sqrt (INR (List.length a)).

(** The level handed to [tf.ppf]. *)
Definition quantile_level : R := 975 / 1000.

(** [tf = stats.t(len(data)-1)] *)
Definition tf (stats_t : Z -> rv_frozen) (data : list R) : rv_frozen :=
  stats_t (len data - 1)%Z.

(** [ci = np.mean(data) + stats.sem(data)*np.array([-1,1])*tf.ppf(0.975)],
    the expression of [plus_minus] with its operations exact.  The script
    computes it on doubles; this reading serves where a probability is
    spoken of (the coverage of the interval), which the rounded bounds
    approximate.  What the rounded bounds themselves satisfy is stated on
    [plus_minus], in [Binary64Facts]. *)
Definition ci (stats_t : Z -> rv_frozen) (data : list R) : R * R :=
  let tq := ppf (tf stats_t data) quantile_level in
  (mean data + sem data * (-1) * tq, mean data + sem data * 1 * tq).

(** The probability a variable with distribution [d] falls in [[-x, x]]. *)
Definition two_sided_level (d : rv_frozen) (x : R) : R :=
  cdf d x - cdf d (- x).



(** A sample that holds two different values. *)
Definition nonconstant (data : list R) : Prop :=
  exists x y, In x data /\ In y data /\ x <> y.

(** Student's t with one degree of freedom is the Cauchy distribution,
    the one case with an elementary cdf and quantile function. *)
Definition student_t1 : rv_frozen :=
  {| cdf := fun x => 1 / 2 + atan x / PI;
     ppf := fun q => tan (PI * (q - 1 / 2)) |}.

(** A table of t distributions that is right for samples of two. *)
Definition stats_t_pairs : Z -> rv_frozen := fun _ => student_t1.

Definition two_points : list R := [1; 3].
End Exact.

(* ------------------------------------------------------------------ *)
(** ** The confidence interval of [check_mean], in binary64

    [plus_minus] computes line 40 of [ISP_oneGroup.py] on IEEE 754
    doubles.  Its roundings are those of the specification of binary64
    in the standard library ([SpecFloat]), to which the primitive floats
    conform; the vocabulary below describes what a rounding may do.  A
    magnitude is counted in units of [2^-1074], the smallest positive
    double, so that every finite double is an integer. *)

Module Binary64.
Import SpecFloat FloatOps.
Local Open Scope Z_scope.

(** The mantissa [m] at exponent [e] is the normal form of a double. *)
Definition canonical (m : positive) (e : Z) : Prop :=
  canonical_mantissa prec emax m e = true.

(** The magnitude [m * 2^e], in units of [2^-1074]. *)
Definition value (m : positive) (e : Z) : Z := Zpos m * 2 ^ (e + 1074).

(** The number of bits of a mantissa. *)
Definition digits (m : positive) : Z := Zpos (digits2_pos m).

(** [y] is [x] shifted right by [k] bits: the mantissa is divided by
    [2^k], and nothing is recorded as lost when nothing was. *)
Definition shifted_right (k : Z) (x y : shr_record) : Prop :=
  shr_m y = shr_m x / 2 ^ k
  /\ (shr_m x = shr_m y * 2 ^ k -> shr_r x = false -> shr_s x = false ->
      shr_r y = false /\ shr_s y = false).

(** [r] is a double of sign [s] next to the magnitude [V]: it is
    infinite or canonical, and no double lies strictly between [V] and
    [r]. *)
Definition rounds_to (s : bool) (V : Z) (r : spec_float) : Prop :=
  exists mr er,
    r = (if er <=? 971 then S754_finite s mr er else S754_infinity s)
    /\ canonical mr er
    /\ (forall a b, canonical a b -> value a b <= V -> value a b <= value mr er)
    /\ (forall a b, canonical a b -> V <= value a b -> value mr er <= value a b).

Definition valid (x : spec_float) : Prop :=
  SpecFloat.valid_binary prec emax x = true.

(** Neither infinite nor NaN. *)
Definition finite (x : spec_float) : Prop :=
  match x with
  | S754_zero _ | S754_finite _ _ _ => True
  | S754_infinity _ | S754_nan => False
  end.

(** [x] is a number (infinite or not) that carries the sign bit [s]. *)
Definition signed (s : bool) (x : spec_float) : Prop :=
  match x with
  | S754_zero s' | S754_infinity s' | S754_finite s' _ _ => s' = s
  | S754_nan => False
  end.

Definition nonzero_finite (x : spec_float) : Prop :=
  match x with
  | S754_finite _ _ _ => True
  | _ => False
  end.
End Binary64.

(* ------------------------------------------------------------------ *)
(** ** Properties of commands *)

(** A command built from return, sequencing, library calls and [print]
    alone: no [raise] of its own and no [try]. *)
Inductive plain : forall {A}, prog A -> Prop :=
| plain_ret {A} (a : A) : plain (Ret a)
| plain_bind {A B} (p : prog B) (k : B -> prog A) :
    plain p -> (forall b, plain (k b)) -> plain (Bind p k)
| plain_call {A} (c : libcall A) : plain (Call c)
| plain_print (s : string) : plain (Print s).

(** The libraries answer every call with a value. *)
Definition never_raises {W} (lib : forall B, libcall B -> W -> result B * W)
  : Prop :=
  forall B (c : libcall B) (w : W), exists b w', lib B c w = (Returned b, w').

(** Every event of the trace is a call the libraries answered that way. *)
Definition answered {W} (lib : forall B, libcall B -> W -> result B * W)
  (ev : event) : Prop :=
  match ev with
  | EvCall c r => exists w w', lib _ c w = (r, w')
  | EvOut _ => True
  end.

(** An exception raised inside a library call ends the command at that
    call, as the command's own outcome; and the command raises nothing
    that did not come out of a library call. *)
Definition propagates_uncaught {A} (p : prog A) : Prop :=
  forall W (lib : forall B, libcall B -> W -> result B * W) (w : W),
    let x := run lib p w in
    (forall ev e, In ev (trace x) -> raised_in ev = Some e ->
       outcome x = Raised e /\ exists tr0, trace x = tr0 ++ [ev])
    /\ (forall e, outcome x = Raised e ->
          exists tr0 ev, trace x = tr0 ++ [ev] /\ raised_in ev = Some e).

Definition is_kstest (ev : event) : bool :=
  match ev with
  | EvCall c _ =>
      match c with
      | stats_kstest _ _ => true
      | _ => false
      end
  | EvOut _ => false
  end.

(* ------------------------------------------------------------------ *)
(** ** A stand-in for the libraries, to run the scripts on *)

Module Stub.
Definition pvalue (base : float) (a : ndarray) : float * float :=
  (1%float,
   if (100 <? List.length a)%nat then base else PrimFloat.div base 2).

(** The answer of a call that succeeds. *)
Definition canned {B} (c : libcall B) : B :=
  match c in libcall T return T with
  | np_genfromtxt _ _ => [5260; 5470; 5640; 6180; 6390]%float
  | np_mean a => nth 0 a 0%float
  | np_std _ _ => 1%float
  | np_random_seed _ => tt
  | np_random_randn n => repeat 0.25%float (Z.to_nat n)
  | ndarray_len a => len a
  | stats_t _ => PyObj 1
  | stats_norm _ _ => PyObj 2
  | rv_ppf _ q => q
  | rv_rvs _ size => repeat 7%float (Z.to_nat size)
  | stats_sem _ => 0.5%float
  | stats_ttest_1samp a _ => pvalue 0.02 a
  | stats_wilcoxon a => pvalue 0.5 a
  | stats_norm_rvs loc _ size => repeat loc (Z.to_nat size)
  | stats_norm_cdf _ _ _ => 0.03125%float
  | stats_normaltest a => pvalue 0.125 a
  | stats_shapiro a => pvalue 0.25 a
  | stats_kstest a _ => pvalue 0.75 a
  | lilliefors a => pvalue 0.375 a
  | seasonal_decompose _ _ _ _ => PyObj 3
  | get_resid _ => PyObj 4
  | plot_acf _ => tt
  | plot_pacf _ => tt
  | ARIMA _ _ _ => PyObj 5
  | model_fit _ => PyObj 6
  | fit_summary _ => PyObj 7
  | ArmaProcess _ _ => PyObj 8
  | generate_sample _ n => repeat 0%float (Z.to_nat n)
  | pd_read_csv _ _ _ _ => PyObj 9
  | df_head _ => PyObj 10
  | df_plot _ _ _ => tt
  | df_getitem _ _ => PyObj 11
  | series_str _ => "Series"
  | obj_str _ => "object"
  | plt_hist _ => tt
  | plt_show => tt
  | plt_plot _ _ => tt
  | obj_plot _ => tt
  | pg_qqplot _ => tt
  | import_from _ _ => tt
  | ISP_showData _ => tt
  end.

(** The world is the number of calls made so far; [fails] picks the
    calls that raise. *)
Definition lib (fails : forall B, libcall B -> option exn)
  : forall B, libcall B -> nat -> result B * nat :=
  fun B c n =>
    match fails B c with
    | Some e => (Raised e, S n)
    | None => (Returned (canned c), S n)
    end.

Definition healthy : forall B, libcall B -> option exn := fun _ _ => None.

Definition OSError (msg : string) : exn :=
  Exception ["FileNotFoundError"; "OSError"; "Exception"; "BaseException"] msg.
Definition URLError (msg : string) : exn :=
  Exception ["URLError"; "OSError"; "Exception"; "BaseException"] msg.
Definition ValueError (msg : string) : exn :=
  Exception ["ValueError"; "Exception"; "BaseException"] msg.
Definition ModuleNotFoundError (msg : string) : exn :=
  Exception ["ModuleNotFoundError"; "ImportError"; "Exception"; "BaseException"] msg.

(** No data file, no network, no Utilities directory, and a Shapiro-Wilk
    test that rejects its input. *)
Definition broken : forall B, libcall B -> option exn :=
  fun B c =>
    match c with
    | np_genfromtxt f _ => Some (OSError (f ++ " not found."))
    | pd_read_csv _ _ _ _ => Some (URLError "Name or service not known")
    | stats_shapiro _ => Some (ValueError "Data must be at least length 3.")
    | import_from m _ => Some (ModuleNotFoundError ("No module named " ++ m))
    | _ => None
    end.

Definition formatter : Formatter :=
  {| format_float := fun spec _ => ("{:" ++ spec ++ "}")%string;
     format_int := fun spec _ => ("{:" ++ spec ++ "}")%string |}.
End Stub.

(* ------------------------------------------------------------------ *)
(** ** More to say about commands and traces *)

(** A command with no [try] in it, whose own [raise] statements raise
    only exceptions satisfying [P]. *)
Inductive own_raises (P : exn -> Prop) : forall {A}, prog A -> Prop :=
| own_ret {A} (a : A) : own_raises P (Ret a)
| own_bind {A B} (p : prog B) (k : B -> prog A) :
    own_raises P p -> (forall b, own_raises P (k b)) -> own_raises P (Bind p k)
| own_call {A} (c : libcall A) : own_raises P (Call c)
| own_print (s : string) : own_raises P (Print s)
| own_raise {A} (e : exn) : P e -> own_raises P (@Raise A e).

(** A command all of whose library calls pass the test [ok]. *)
Inductive calls_only (ok : forall B, libcall B -> bool)
  : forall {A}, prog A -> Prop :=
| only_ret {A} (a : A) : calls_only ok (Ret a)
| only_bind {A B} (p : prog B) (k : B -> prog A) :
    calls_only ok p -> (forall b, calls_only ok (k b)) ->
    calls_only ok (Bind p k)
| only_call {A} (c : libcall A) : ok A c = true -> calls_only ok (Call c)
| only_print (s : string) : calls_only ok (Print s)
| only_raise {A} (e : exn) : calls_only ok (@Raise A e)
| only_try {A} (body : prog A) (cls : string) (handler : prog A) :
    calls_only ok body -> calls_only ok handler ->
    calls_only ok (TryExcept body cls handler).

Definition event_ok (ok : forall B, libcall B -> bool) (ev : event) : bool :=
  match ev with
  | EvCall c _ => ok _ c
  | EvOut _ => true
  end.

(** Calls that draw or show a figure. *)
Definition draws (B : Type) (c : libcall B) : bool :=
  match c with
  | plt_hist _ | plt_show | plt_plot _ _ | obj_plot _ | pg_qqplot _
  | df_plot _ _ _ | plot_acf _ | plot_pacf _ | ISP_showData _ => true
  | _ => false
  end.

Definition headless (B : Type) (c : libcall B) : bool := negb (draws B c).

(** Calls other than to the [showData] of the Utilities module. *)
Definition not_ISP_showData (B : Type) (c : libcall B) : bool :=
  match c with
  | ISP_showData _ => false
  | _ => true
  end.

(** Calls other than to the [ARIMA] constructor. *)
Definition not_ARIMA (B : Type) (c : libcall B) : bool :=
  match c with
  | ARIMA _ _ _ => false
  | _ => true
  end.

(** The lines written to standard output, in order. *)
Fixpoint printed (tr : list event) : list string :=
  match tr with
  | [] => []
  | EvOut s :: tr' => s :: printed tr'
  | EvCall _ _ :: tr' => printed tr'
  end.

(** The numbers [float(np.random.randn(1))] produced, in order. *)
Definition noise_of (ev : event) : option float :=
  match ev with
  | EvCall c r =>
      match c in libcall T return result T -> option float with
      | np_random_randn _ =>
          fun r => match r with
                   | Returned [v] => Some v
                   | _ => None
                   end
      | _ => fun _ => None
      end r
  | EvOut _ => None
  end.

Fixpoint noises (tr : list event) : list float :=
  match tr with
  | [] => []
  | ev :: tr' =>
      match noise_of ev with
      | Some v => v :: noises tr'
      | None => noises tr'
      end
  end.

(** One pass of the simulation loop of [fit_ARIMA_models], given the noise:
    [x.append(x[-1] - 0.5*x[-2] + e)]. *)
Definition ar2_append (x : list float) (e : float) : list float :=
  x ++ [PrimFloat.add
          (PrimFloat.sub (from_end x 1) (PrimFloat.mul 0.5 (from_end x 2))) e].

(** The list after one pass per noise value. *)
Definition ar2_path (x : list float) (es : list float) : list float :=
  fold_left ar2_append es x.

(** What [__main__] of [ISP_TimeSeries.py] does once the module is loaded. *)
Definition pipeline (st : ISP_TimeSeries.style) : prog unit :=
  data <- ISP_TimeSeries.get_CO2_data ;;
  decomposed <- ISP_TimeSeries.acf_and_pacf st data ;;
  ISP_TimeSeries.fit_ARIMA_models decomposed.

(** The import statement of the guard. *)
Definition import_ISP_mystyle : libcall unit :=
  import_from "ISP_mystyle" ["setFonts"; "showData"].

(* ------------------------------------------------------------------ *)
(** ** [explain_power], in exact arithmetic

    Lines 66-102 of [ISP_oneGroup.py] over the reals, as [Exact] reads
    [check_mean]: the sample drawn by [stats.norm(7,3).rvs(n)] is the
    argument [data], and [results] holds what the dictionary of that name
    holds when it is printed. *)

Module ExactPower.
Import Exact.
Local Open Scope R_scope.

(** [rv.sf(x)], the survival function, and [rv.isf(q)], its inverse. *)
Definition sf (rv : rv_frozen) (x : R) : R := 1 - cdf rv x.
Definition isf (rv : rv_frozen) (q : R) : R := ppf rv (1 - q).

(** A distribution frozen with [loc] and [scale]: that of [loc + scale*T]. *)
Definition shifted (rv : rv_frozen) (loc scale : R) : rv_frozen :=
  {| cdf := fun x => cdf rv ((x - loc) / scale);
     ppf := fun q => loc + scale * ppf rv q |}.

Record results := {
  dof : Z;
  t_val : R;
  d : R;
  p_val : R;
  ci : R * R;
  power : R
}.

Definition explain_power
  (stats_t : Z -> rv_frozen) (stats_nct : Z -> R -> rv_frozen)
  (data : list R) : results :=
  let n := 100%Z in
  (* analysis parameters *)
  let c := 65 / 10 in
  let alpha := 5 / 100 in
  (* standard parameters *)
  let mean := mean data in
  let sem := sem data in
  let std := std data 1 in
  let dof := (n - 1)%Z in
  let h1 := shifted (stats_t (len data - 1)%Z) mean sem in
  let t_val := (mean - c) / sem in
  let tc := isf (stats_t dof) (alpha / 2) in
  let nct := stats_nct dof ((mean - c) / sem) in
  {| dof := dof;
     t_val := t_val;
     d := (mean - c) / Exact.std data 1;
     p_val := sf (stats_t dof) t_val * 2;
     ci := (ppf h1 (alpha / 2), ppf h1 (1 - alpha / 2));
     power := sf nct tc + cdf nct (- tc) |}.

(** The critical value [tc = stats.t(dof).isf(alpha/2)] of [explain_power]. *)
Definition critical_value (stats_t : Z -> rv_frozen) : R :=
  isf (stats_t 99%Z) (5 / 100 / 2).

(** A distribution function that takes no value twice. *)
Definition cdf_injective (rv : rv_frozen) : Prop :=
  forall x y, cdf rv x = cdf rv y -> x = y.

(** A stand-in for the noncentral-t table: the central distribution,
    moved by the noncentrality. *)
Definition stats_nct_pairs : Z -> R -> rv_frozen :=
  fun _ nc => shifted student_t1 nc 1.
End ExactPower.

(* ------------------------------------------------------------------ *)
(** ** More stand-ins for the libraries *)

Module Faults.
(** Only the Utilities module is missing. *)
Definition no_utilities : forall B, libcall B -> option exn :=
  fun B c =>
    match c with
    | import_from m _ =>
        Some (Stub.ModuleNotFoundError ("No module named " ++ m))
    | _ => None
    end.

(** A frame without the column asked for, and a normal cdf that rejects
    its scale. *)
Definition bad_input : forall B, libcall B -> option exn :=
  fun B c =>
    match c with
    | df_getitem _ key => Some (KeyError key)
    | stats_norm_cdf _ _ _ =>
        Some (Stub.ValueError "scale must be positive")
    | _ => None
    end.

(** Libraries that answer every call, with a generator whose [randn]
    hands back an empty array. *)
Definition empty_noise : forall B, libcall B -> nat -> result B * nat :=
  fun B c n =>
    match c in libcall T return result T * nat with
    | np_random_randn _ => (Returned [], S n)
    | c' => (Returned (Stub.canned c'), S n)
    end.

End Faults.

(** The exception of [float(a)] on an array that is not one element. *)
Definition only_size_1 (e : exn) : Prop :=
  e = TypeError "only size-1 arrays can be converted to Python scalars".

(* ------------------------------------------------------------------ *)
(** * Facts about the interpreter *)

Section RunFacts.
Context {W : Type}.
Variable lib : forall B, libcall B -> W -> result B * W.

Lemma run_bind {A B} (p : prog B) (k : B -> prog A) (w : W) :
  run lib (Bind p k) w =
  match run lib p w with
  | (Returned b, w1, tr1) =>
      let '(r, w2, tr2) := run lib (k b) w1 in (r, w2, tr1 ++ tr2)
  | (Raised e, w1, tr1) => (Raised e, w1, tr1)
  end.
Proof. reflexivity. Qed.

Lemma run_call {A} (c : libcall A) (w : W) :
  run lib (Call c) w = (fst (lib A c w), snd (lib A c w),
                        [EvCall c (fst (lib A c w))]).
Proof. simpl. destruct (lib A c w); reflexivity. Qed.

(** Every call in a trace was answered by the libraries as recorded. *)
Lemma trace_answered {A} (p : prog A) :
  forall w ev, In ev (trace (run lib p w)) -> answered lib ev.
Proof.
  induction p; intros w ev Hin.
  - destruct Hin.
  - rewrite run_bind in Hin.
    destruct (run lib p w) as [[[b|e] w1] tr1] eqn:E1.
    + destruct (run lib (k b) w1) as [[r2 w2] tr2] eqn:E2.
      unfold trace in Hin; simpl in Hin.
      apply in_app_or in Hin as [Hin|Hin].
      * apply (IHp w). rewrite E1. exact Hin.
      * apply (H b w1). rewrite E2. exact Hin.
    + apply (IHp w). rewrite E1. exact Hin.
  - rewrite run_call in Hin. destruct Hin as [<-|[]].
    simpl. exists w, (snd (lib A c w)). destruct (lib A c w); reflexivity.
  - destruct Hin as [<-|[]]. exact I.
  - destruct Hin.
  - simpl in Hin.
    destruct (run lib p1 w) as [[[b|e] w1] tr1] eqn:E1.
    + apply (IHp1 w). rewrite E1. exact Hin.
    + destruct (isinstance e cls).
      * destruct (run lib p2 w1) as [[r2 w2] tr2] eqn:E2.
        unfold trace in Hin; simpl in Hin.
        apply in_app_or in Hin as [Hin|Hin].
        -- apply (IHp1 w). rewrite E1. exact Hin.
        -- apply (IHp2 w1). rewrite E2. exact Hin.
      * apply (IHp1 w). rewrite E1. exact Hin.
Qed.

(** In a plain command a library exception is the last thing that
    happens, and it is the command's outcome. *)
Lemma plain_raise_is_last {A} (p : prog A) :
  plain p ->
  forall w ev e,
    In ev (trace (run lib p w)) -> raised_in ev = Some e ->
    outcome (run lib p w) = Raised e
    /\ exists tr0, trace (run lib p w) = tr0 ++ [ev].
Proof.
  induction 1 as [A a|A B p k Hp IHp Hk IHk|A c|s]; intros w ev e Hin Hev.
  - destruct Hin.
  - rewrite run_bind in *.
    destruct (run lib p w) as [[[b|e1] w1] tr1] eqn:E1.
    + destruct (run lib (k b) w1) as [[r2 w2] tr2] eqn:E2.
      unfold trace, outcome in *; simpl in *.
      apply in_app_or in Hin as [Hin|Hin].
      * specialize (IHp w ev e). rewrite E1 in IHp.
        destruct (IHp Hin Hev) as [Hout _]. discriminate Hout.
      * specialize (IHk b w1 ev e). rewrite E2 in IHk.
        destruct (IHk Hin Hev) as [Hout [tr0 Htr]].
        simpl in Hout, Htr. subst.
        split; [reflexivity|]. exists (tr1 ++ tr0). apply app_assoc.
    + specialize (IHp w ev e). rewrite E1 in IHp.
      destruct (IHp Hin Hev) as [Hout Htr].
      unfold outcome in *; simpl in *. injection Hout as ->.
      split; [reflexivity|exact Htr].
  - rewrite run_call in *. destruct Hin as [<-|[]].
    simpl in Hev. unfold outcome; simpl.
    destruct (fst (lib A c w)); [discriminate|].
    injection Hev as ->. split; [reflexivity|]. exists []. reflexivity.
  - destruct Hin as [<-|[]]. discriminate.
Qed.

(** A plain command raises only what a library call raised. *)
Lemma plain_raise_from_library {A} (p : prog A) :
  plain p ->
  forall w e,
    outcome (run lib p w) = Raised e ->
    exists tr0 ev, trace (run lib p w) = tr0 ++ [ev] /\ raised_in ev = Some e.
Proof.
  induction 1 as [A a|A B p k Hp IHp Hk IHk|A c|s]; intros w e Hout.
  - discriminate.
  - rewrite run_bind in *.
    destruct (run lib p w) as [[[b|e1] w1] tr1] eqn:E1.
    + destruct (run lib (k b) w1) as [[r2 w2] tr2] eqn:E2.
      unfold outcome in Hout; simpl in Hout. subst r2.
      destruct (IHk b w1 e) as [tr0 [ev [Htr Hev]]]; [rewrite E2; reflexivity|].
      rewrite E2 in Htr. unfold trace in *; simpl in *. subst tr2.
      exists (tr1 ++ tr0), ev. split; [apply app_assoc|exact Hev].
    + unfold outcome in Hout; simpl in Hout. injection Hout as ->.
      destruct (IHp w e) as [tr0 [ev [Htr Hev]]]; [rewrite E1; reflexivity|].
      rewrite E1 in Htr. eauto.
  - rewrite run_call in *. unfold outcome in Hout; simpl in Hout.
    exists [], (EvCall c (fst (lib A c w))). split; [reflexivity|].
    simpl. rewrite Hout. reflexivity.
  - discriminate.
Qed.

(** With libraries that never raise, a plain command returns. *)
Lemma plain_returns {A} (p : prog A) :
  plain p -> never_raises lib ->
  forall w, exists a, outcome (run lib p w) = Returned a.
Proof.
  intros Hp Hlib w.
  destruct (outcome (run lib p w)) as [a|e] eqn:Hout; [eauto|].
  destruct (plain_raise_from_library p Hp w e Hout) as [tr0 [ev [Htr Hev]]].
  assert (Hans : answered lib ev).
  { apply (trace_answered p w). rewrite Htr. apply in_or_app. right. left. reflexivity. }
  destruct ev as [B c r|s]; [|discriminate].
  destruct r as [b|e']; [discriminate|].
  destruct Hans as [w0 [w1 Hans]].
  destruct (Hlib B c w0) as [b [w' Hb]]. congruence.
Qed.
End RunFacts.

Lemma plain_propagates {A} (p : prog A) : plain p -> propagates_uncaught p.
Proof.
  intros Hp W lib w. split.
  - intros ev e. apply plain_raise_is_last. exact Hp.
  - intros e. apply plain_raise_from_library. exact Hp.
Qed.

(** Stepping through a command: split on what the libraries answer to the
    next call. *)
Ltac next_call lib :=
  match goal with
  | |- context [lib ?B ?c ?w] =>
      let r := fresh "r" in
      let w' := fresh "w" in
      let e := fresh "e" in
      destruct (lib B c w) as [[r|e] w']; simpl
  end.

Ltac prove_plain :=
  repeat first
    [ apply plain_ret | apply plain_call | apply plain_print
    | apply plain_bind; [|intros]
    | match goal with
      | |- plain (match ?x with _ => _ end) => destruct x
      | |- plain (when ?b _) => destruct b
      end
    | progress cbn ].

(* ------------------------------------------------------------------ *)
(** * ISP_TimeSeries.py *)

Section TimeSeriesFacts.
Import ISP_TimeSeries.
Context {W : Type}.
Variable lib : forall B, libcall B -> W -> result B * W.

(** The body of the loop does not read the loop variable. *)
Lemma fit_one_ignores_order (sd : pyobj) (o o' : nat * nat * nat) :
  fit_one sd o = fit_one sd o'.
Proof. reflexivity. Qed.

(** C1, as the code has it.  Whenever the loop over [orders] runs to its
    end, the [ARIMA] constructor was called twice and was given the
    order (1,0,1) both times: the second element of [orders], (0,0,2),
    is never passed. *)
Theorem fit_orders_passes_fixed_order (sd : pyobj) (w : W) :
  outcome (run lib (fit_orders sd) w) = Returned tt ->
  arima_orders (trace (run lib (fit_orders sd) w))
  = [(1, 0, 1); (1, 0, 1)]%nat
  /\ arima_orders (trace (run lib (fit_orders sd) w)) <> orders.
Proof.
  unfold fit_orders, orders, fit_one, outcome, trace. simpl.
  repeat (next_call lib; try (intros; discriminate)).
  intros _. split; [reflexivity|discriminate].
Qed.
End TimeSeriesFacts.

Lemma fit_orders_passes_fixed_order_witness :
  let x := run (Stub.lib Stub.healthy)
             (ISP_TimeSeries.fit_orders (PyObj 3)) 0%nat in
  ISP_TimeSeries.arima_orders (trace x) = [(1, 0, 1); (1, 0, 1)]%nat
  /\ ISP_TimeSeries.arima_orders (trace x) <> ISP_TimeSeries.orders.
Proof.
  apply (fit_orders_passes_fixed_order (Stub.lib Stub.healthy) (PyObj 3) 0%nat).
  reflexivity.
Defined.

(** The guarded import is the one place where the scripts take an
    exception back: without the Utilities directory the module falls back
    to its own [showData]. *)
Lemma import_guard_absorbs :
  outcome (run (Stub.lib Stub.broken) ISP_TimeSeries.import_mystyle 0%nat)
  = Returned ISP_TimeSeries.Fallback.
Proof. reflexivity. Qed.

(* ------------------------------------------------------------------ *)
(** * Exceptions *)

Section Plain.
Context `{Formatter}.


Lemma compareWithNormal_plain : plain ISP_oneGroup.compareWithNormal.
Proof. unfold ISP_oneGroup.compareWithNormal. prove_plain. Qed.

Lemma check_normality_plain (show_flag : bool) :
  plain (ISP_checkNormality.check_normality show_flag).
Proof. unfold ISP_checkNormality.check_normality. prove_plain. Qed.


End Plain.


(* ------------------------------------------------------------------ *)
(** * ISP_checkNormality.py *)

Lemma split_trace (k : nat) (tr rest : list event) (a b c : event) :
  skipn k tr = a :: b :: c :: rest ->
  tr = firstn k tr ++ a :: b :: c :: rest.
Proof. intros <-. symmetry. apply firstn_skipn. Qed.

#[local] Arguments firstn : simpl never.

Ltac next_reply lib :=
  first
    [ next_call lib
    | match goal with
      | |- context [when ?b _] => destruct b; simpl
      | |- context [if ?b then _ else _] => destruct b; simpl
      end ];
  repeat match goal with
         | r : (_ * _)%type |- _ => destruct r; simpl
         | r : unit |- _ => destruct r
         end.

Section CheckNormalityFacts.
Import ISP_checkNormality.
Context `{Formatter}.
Context {W : Type}.
Variable lib : forall B, libcall B -> W -> result B * W.

(** C9.  [check_normality] returns one table entry, a float: the
    p-value the first [stats.kstest] call answered, and that call was
    made on [(data - np.mean(data)) / np.std(data, ddof=1)] with [data]
    the whole sample drawn by [stats.norm.rvs(0, 3, size=1000)].  When no
    library call raises, the function does return. *)
Theorem check_normality_returns_ks_of_full_sample (show_flag : bool) (w : W) :
  let x := run lib (check_normality show_flag) w in
  (never_raises lib -> exists v, outcome x = Returned v)
  /\ (forall v, outcome x = Returned v ->
      exists data m s d p before rest after,
        trace x
        = before
          ++ [EvCall (np_mean data) (Returned m);
              EvCall (np_std data 1) (Returned s);
              EvCall (stats_kstest
                        (arr_div_scalar (arr_sub_scalar data m) s) "norm")
                (Returned (d, p))]
          ++ after
        /\ before
           = EvCall (np_random_seed 12345) (Returned tt)
             :: EvCall (stats_norm_rvs 0 3 1000) (Returned data) :: rest
        /\ existsb is_kstest before = false
        /\ v = SFloat p).
Proof.
  split.
  - intros Hlib. apply plain_returns; [apply check_normality_plain|exact Hlib].
  - unfold outcome, trace, check_normality.
    destruct show_flag; simpl;
      repeat (next_reply lib; try (intros; discriminate));
      intros v [= <-]; do 5 eexists; eexists; eexists; eexists;
      (split; [|split; [|split]]);
      first [ reflexivity
            | apply (split_trace 12); reflexivity
            | apply (split_trace 8); reflexivity ].
Qed.
End CheckNormalityFacts.

Lemma check_normality_returns_ks_of_full_sample_witness :
  let x := run (Stub.lib Stub.healthy)
             (@ISP_checkNormality.check_normality Stub.formatter false) 0%nat in
  (exists v, outcome x = Returned v)
  /\ exists data m s d p before rest after,
       trace x
       = before
         ++ [EvCall (np_mean data) (Returned m);
             EvCall (np_std data 1) (Returned s);
             EvCall (stats_kstest
                       (arr_div_scalar (arr_sub_scalar data m) s) "norm")
               (Returned (d, p))]
         ++ after
       /\ before
          = EvCall (np_random_seed 12345) (Returned tt)
            :: EvCall (stats_norm_rvs 0 3 1000) (Returned data) :: rest
       /\ existsb is_kstest before = false
       /\ SFloat 0.75 = SFloat p.
Proof.
  destruct (@check_normality_returns_ks_of_full_sample Stub.formatter nat
              (Stub.lib Stub.healthy) false 0%nat) as [Hret Hval].
  split.
  - apply Hret. intros B c w. exists (Stub.canned c), (S w). reflexivity.
  - apply (Hval (SFloat 0.75)). reflexivity.
Defined.

(* ------------------------------------------------------------------ *)
(** * ISP_oneGroup.py *)

Ltac find_event := simpl; repeat first [left; reflexivity | right].

Ltac no_such_event H :=
  simpl in H;
  repeat (destruct H as [H|H]; [try discriminate H|]);
  try contradiction.

Section OneGroupFacts.
Import ISP_oneGroup.
Context `{Formatter}.
Context {W : Type}.
Variable lib : forall B, libcall B -> W -> result B * W.

Lemma compareWithNormal_prints (w : W) (a : float) :
  outcome (run lib compareWithNormal w) = Returned a ->
  exists s, In (EvOut s) (trace (run lib compareWithNormal w)).
Proof.
  unfold outcome, trace, compareWithNormal. simpl.
  repeat (next_reply lib; try (intros; discriminate)).
  intros _. eexists. find_event.
Qed.

(** C10.  Whatever the libraries answer, a line [compareWithNormal]
    prints is the fixed text with the characters [{tProb:5.4f}] standing
    where the t-test probability was meant to go, followed by the
    formatted normal-distribution probability, twice the value
    [stats.norm.cdf] answered, which is also what the function returns;
    the probability of the t-test does not occur in it.  When no library
    call raises, the line is printed. *)
Theorem compareWithNormal_prints_placeholder (w : W) :
  let x := run lib compareWithNormal w in
  (never_raises lib -> exists s, In (EvOut s) (trace x))
  /\ (forall s, In (EvOut s) (trace x) ->
      exists (data : ndarray) mmean mstd c,
        s = ("The probability from the t-test is " ++ "{tProb:5.4f}"
             ++ ", and from the normal distribution "
             ++ format_float "5.4f" (PrimFloat.mul c 2))%string
        /\ In (EvCall
                 (stats_norm_cdf 6.5 mmean
                    (PrimFloat.div mstd
                       (PrimFloat.sqrt (float_of_Z (len data)))))
                 (Returned c)) (trace x)
        /\ outcome x = Returned (PrimFloat.mul c 2)).
Proof.
  split.
  - intros Hlib.
    destruct (plain_returns lib compareWithNormal compareWithNormal_plain
                Hlib w) as [a Ha].
    exact (compareWithNormal_prints w a Ha).
  - unfold outcome, trace, compareWithNormal. simpl.
    repeat (next_reply lib; try (intros s Hin; no_such_event Hin; fail)).
    intros s Hin. no_such_event Hin.
    injection Hin as <-.
    do 4 eexists. split; [reflexivity|]. split; [|reflexivity].
    find_event.
Qed.

(** The two bounds [check_mean] prints, in binary64: the expression that
    [Exact.ci] reads over the reals. *)
Lemma plus_minus_bounds (m se tq : float) :
  plus_minus m se tq
  = [PrimFloat.add m (PrimFloat.mul (PrimFloat.mul se (-1)) tq);
     PrimFloat.add m (PrimFloat.mul (PrimFloat.mul se 1) tq)].
Proof. reflexivity. Qed.

(** X9.  What [check_mean] returns is the p-value [stats.ttest_1samp]
    answered for the data read from the file and the value 7725. *)
Lemma check_mean_returns_ttest_pvalue (w : W) (v : float) :
  outcome (run lib check_mean w) = Returned v ->
  exists data t,
    trace (run lib check_mean w)
    = EvCall (np_genfromtxt "altman_91.txt" ",") (Returned data)
      :: skipn 1 (trace (run lib check_mean w))
    /\ In (EvCall (stats_ttest_1samp data 7725) (Returned (t, v)))
         (trace (run lib check_mean w)).
Proof.
  unfold outcome, trace, check_mean. simpl.
  repeat (next_reply lib; try (intros; discriminate));
    intros [= <-]; do 2 eexists; (split; [reflexivity|]); find_event.
Qed.
End OneGroupFacts.

Lemma compareWithNormal_prints_placeholder_witness :
  let x := run (Stub.lib Stub.healthy)
             (@ISP_oneGroup.compareWithNormal Stub.formatter) 0%nat in
  (exists s, In (EvOut s) (trace x))
  /\ exists (data : ndarray) mmean mstd c,
       "The probability from the t-test is {tProb:5.4f}, and from the normal distribution {:5.4f}"
       = ("The probability from the t-test is " ++ "{tProb:5.4f}"
          ++ ", and from the normal distribution "
          ++ @format_float Stub.formatter "5.4f" (PrimFloat.mul c 2))%string
       /\ In (EvCall
                (stats_norm_cdf 6.5 mmean
                   (PrimFloat.div mstd
                      (PrimFloat.sqrt (float_of_Z (len data)))))
                (Returned c)) (trace x)
       /\ outcome x = Returned (PrimFloat.mul c 2).
Proof.
  destruct (@compareWithNormal_prints_placeholder Stub.formatter nat
              (Stub.lib Stub.healthy) 0%nat) as [Hprints Hline].
  split.
  - apply Hprints. intros B c w. exists (Stub.canned c), (S w). reflexivity.
  - apply Hline. vm_compute. do 7 right. left. reflexivity.
Defined.

(* ------------------------------------------------------------------ *)
(** * The confidence interval *)

Module ExactFacts.
Import Exact.
Local Open Scope R_scope.

Lemma cdf_at_zero d : symmetric_continuous d -> cdf d 0 = 1 / 2.
Proof.
  intros Hd. pose proof (cdf_sym d Hd 0) as Hs.
  rewrite Ropp_0 in Hs. lra.
Qed.

(** A quantile above the median is positive. *)
Lemma ppf_pos d q :
  symmetric_continuous d -> 1 / 2 < q < 1 -> 0 < ppf d q.
Proof.
  intros Hd Hq.
  destruct (Rlt_le_dec 0 (ppf d q)) as [Hpos|Hneg]; [exact Hpos|].
  pose proof (cdf_mono d Hd _ _ Hneg) as Hm.
  rewrite (cdf_ppf d Hd q), (cdf_at_zero d Hd) in Hm; lra.
Qed.


Lemma quantile_level_range : 1 / 2 < quantile_level < 1.
Proof. unfold quantile_level. lra. Qed.

Lemma student_t1_symmetric_continuous : symmetric_continuous student_t1.
Proof.
  pose proof PI_RGT_0 as Hpi.
  constructor; simpl.
  - intros x y [Hlt| ->]; [|lra].
    apply atan_increasing in Hlt.
    apply Rplus_le_compat_l, Rmult_le_compat_r; [|lra].
    left. apply Rinv_0_lt_compat. exact Hpi.
  - intros x. rewrite atan_opp. field. lra.
  - intros q Hq. rewrite atan_tan.
    + field. lra.
    + split; nra.
Qed.

Lemma sem_pos_two_values (data : list R) :
  0 < sem data -> (2 <= List.length data)%nat.
Proof.
  destruct data as [|x [|y l]]; simpl; intros Hsem; try lia; exfalso;
    revert Hsem; unfold sem, std, mean; simpl.
  - unfold Rdiv. rewrite Rmult_0_l, sqrt_0, Rmult_0_l. lra.
  - replace (Rsqr (x - (x + 0) / 1) + 0) with 0 by (unfold Rsqr; field).
    unfold Rdiv. rewrite Rmult_0_l, sqrt_0, Rmult_0_l. lra.
Qed.

Lemma total_pos (f : R -> R) (l : list R) (x : R) :
  (forall y, 0 <= f y) -> In x l -> 0 < f x -> 0 < total (map f l).
Proof.
  intros Hf. induction l as [|a l IH]; simpl; intros Hin Hx; [contradiction|].
  assert (0 <= total (map f l)).
  { clear - Hf. induction l as [|b l IHl]; simpl; [lra|].
    specialize (Hf b). lra. }
  destruct Hin as [->|Hin].
  - lra.
  - specialize (IH Hin Hx). specialize (Hf a). lra.
Qed.

Lemma nonconstant_two_values (data : list R) :
  nonconstant data -> (2 <= List.length data)%nat.
Proof.
  intros [x [y [Hx [Hy Hxy]]]].
  destruct data as [|a [|b l]]; simpl in *; try lia; try contradiction.
  destruct Hx as [->|[]], Hy as [->|[]]. contradiction.
Qed.

(** A sample with two different values has a positive standard error. *)
Lemma nonconstant_sem_pos (data : list R) :
  nonconstant data -> 0 < sem data.
Proof.
  intros Hnc. pose proof (nonconstant_two_values data Hnc) as Hlen.
  destruct Hnc as [x [y [Hx [Hy Hxy]]]].
  assert (Hn : 2 <= INR (List.length data)).
  { change 2 with (INR 2). apply le_INR. exact Hlen. }
  assert (Hoff : exists z, In z data /\ z <> mean data).
  { destruct (Req_dec x (mean data)) as [Ex|Ex]; [|eauto].
    exists y. split; [exact Hy|]. congruence. }
  destruct Hoff as [z [Hz Hzm]].
  unfold sem, std.
  apply Rdiv_lt_0_compat; apply sqrt_lt_R0.
  - apply Rdiv_lt_0_compat; [|simpl; lra].
    apply (total_pos (fun v => Rsqr (v - mean data)) data z).
    + intros v. apply Rle_0_sqr.
    + exact Hz.
    + apply Rsqr_pos_lt. lra.
  - lra.
Qed.

(** In exact arithmetic, with [stats.t(df)] a continuous distribution
    symmetric about zero for every [df >= 1]: a sample holding two
    different values has a positive standard error, and whenever the
    standard error is positive the bounds of the interval lie strictly
    on either side of the sample mean.  Rounding can close the gap: on
    doubles the bracket is [ci_weakly_brackets_mean]. *)
Theorem ci_brackets_mean (stats_t : Z -> rv_frozen) (data : list R) :
  (forall df, (1 <= df)%Z -> symmetric_continuous (stats_t df)) ->
  (nonconstant data -> 0 < sem data)
  /\ (0 < sem data ->
      fst (ci stats_t data) < mean data < snd (ci stats_t data)).
Proof.
  intros Ht. split; [apply nonconstant_sem_pos|].
  intros Hsem.
  assert (Hd : symmetric_continuous (tf stats_t data)).
  { apply Ht. pose proof (sem_pos_two_values data Hsem). unfold len. lia. }
  pose proof (ppf_pos _ _ Hd quantile_level_range) as Hq.
  unfold ci; simpl. split; nra.
Qed.

Lemma ci_brackets_mean_witness :
  0 < sem two_points
  /\ fst (ci stats_t_pairs two_points) < mean two_points
     < snd (ci stats_t_pairs two_points).
Proof.
  destruct (ci_brackets_mean stats_t_pairs two_points
              (fun _ _ => student_t1_symmetric_continuous)) as [Hnc Hci].
  assert (Hsem : 0 < sem two_points).
  { apply Hnc. exists 1, 3. simpl. repeat split; auto. lra. }
  split; [exact Hsem|exact (Hci Hsem)].
Defined.






End ExactFacts.


(* ------------------------------------------------------------------ *)
(** * The confidence interval in binary64

    What remains of the bracket [ci[0] < mean < ci[1]] once every
    operation of line 40 rounds: the bounds can meet the mean, and they
    never cross it. *)

Module Binary64Facts.
Import SpecFloat FloatOps FloatAxioms Binary64.
Local Open Scope Z_scope.

(** The format: 53 bits of mantissa, exponents of the unit in the last
    place from -1074 to 971. *)
Lemma fexp_eq (k : Z) : fexp prec emax k = Z.max (k - 53) (-1074).
Proof. reflexivity. Qed.

Lemma digits_pos (m : positive) : 1 <= digits m.
Proof. unfold digits. lia. Qed.

Lemma digits_bounds (m : positive) :
  2 ^ (digits m - 1) <= Zpos m < 2 ^ digits m.
Proof.
  unfold digits.
  induction m as [m IH|m IH|]; simpl digits2_pos.
  - rewrite Pos2Z.inj_succ.
    replace (Z.succ (Zpos (digits2_pos m)) - 1) with (Z.succ (Zpos (digits2_pos m) - 1)) by lia.
    rewrite !Z.pow_succ_r by lia. lia.
  - rewrite Pos2Z.inj_succ.
    replace (Z.succ (Zpos (digits2_pos m)) - 1) with (Z.succ (Zpos (digits2_pos m) - 1)) by lia.
    rewrite !Z.pow_succ_r by lia. lia.
  - simpl. lia.
Qed.

Lemma pow2_pos (k : Z) : 0 <= k -> 0 < 2 ^ k.
Proof. intros. apply Z.pow_pos_nonneg; lia. Qed.

Lemma pow2_le (a b : Z) : 0 <= a <= b -> 2 ^ a <= 2 ^ b.
Proof. intros. apply Z.pow_le_mono_r; lia. Qed.

Lemma pow2_lt_inv (a b : Z) : 0 <= a -> 0 <= b -> 2 ^ a < 2 ^ b -> a < b.
Proof. intros Ha Hb H. apply (Z.pow_lt_mono_r_iff 2); lia. Qed.

Lemma pow2_split (a b : Z) : 0 <= a -> 0 <= b -> 2 ^ (a + b) = 2 ^ a * 2 ^ b.
Proof. intros. apply Z.pow_add_r; lia. Qed.

(** What a canonical mantissa looks like. *)
Lemma canonical_facts (m : positive) (e : Z) :
  canonical m e ->
  -1074 <= e /\ digits m <= 53 /\ (-1074 < e -> digits m = 53).
Proof.
  unfold canonical, canonical_mantissa. rewrite fexp_eq.
  fold (digits m). intros H. apply Z.eqb_eq in H. lia.
Qed.

Lemma canonical_intro (m : positive) (e : Z) :
  Z.max (digits m + e - 53) (-1074) = e -> canonical m e.
Proof.
  intros H. unfold canonical, canonical_mantissa. rewrite fexp_eq.
  fold (digits m). apply Z.eqb_eq. lia.
Qed.

(** A value pins down the magnitude. *)
Lemma value_bounds (m : positive) (e : Z) :
  -1074 <= e ->
  2 ^ (digits m - 1 + (e + 1074)) <= value m e < 2 ^ (digits m + (e + 1074)).
Proof.
  intros He. pose proof (digits_bounds m) as [Hl Hu].
  pose proof (digits_pos m) as Hd.
  unfold value.
  rewrite (pow2_split (digits m - 1) (e + 1074)) by lia.
  rewrite (pow2_split (digits m) (e + 1074)) by lia.
  pose proof (pow2_pos (e + 1074) ltac:(lia)) as Hu0. split.
  - apply Z.mul_le_mono_nonneg_r; lia.
  - apply Z.mul_lt_mono_pos_r; lia.
Qed.

Lemma value_le_magnitude (m1 m2 : positive) (e1 e2 : Z) :
  -1074 <= e1 -> -1074 <= e2 ->
  value m1 e1 <= value m2 e2 ->
  digits m1 + e1 <= digits m2 + e2.
Proof.
  intros H1 H2 Hv.
  pose proof (value_bounds m1 e1 H1) as [Hl1 _].
  pose proof (value_bounds m2 e2 H2) as [_ Hu2].
  pose proof (digits_pos m1). pose proof (digits_pos m2).
  assert (Hlt : 2 ^ (digits m1 - 1 + (e1 + 1074)) < 2 ^ (digits m2 + (e2 + 1074))) by lia.
  apply pow2_lt_inv in Hlt; lia.
Qed.

(** Canonical numbers are ordered by exponent first. *)
Lemma canonical_value_le_exponent (m1 m2 : positive) (e1 e2 : Z) :
  canonical m1 e1 -> canonical m2 e2 ->
  value m1 e1 <= value m2 e2 -> e1 <= e2.
Proof.
  intros C1 C2 Hv.
  pose proof (canonical_facts _ _ C1) as [H1 [D1 N1]].
  pose proof (canonical_facts _ _ C2) as [H2 [D2 N2]].
  pose proof (value_le_magnitude _ _ _ _ H1 H2 Hv).
  destruct (Z_le_gt_dec e1 e2) as [|Hgt]; [assumption|].
  specialize (N1 ltac:(lia)). lia.
Qed.

Lemma value_le_same_exponent (m1 m2 : positive) (e : Z) :
  -1074 <= e -> value m1 e <= value m2 e -> (m1 <= m2)%positive.
Proof.
  intros He Hv. unfold value in Hv.
  pose proof (pow2_pos (e + 1074) ltac:(lia)) as Hu0.
  apply Z.mul_le_mono_pos_r in Hv; lia.
Qed.

(** ** Shifting a mantissa to the right *)

Lemma shr_1_shifted (x : shr_record) : 0 <= shr_m x -> shifted_right 1 x (shr_1 x).
Proof.
  destruct x as [m r s]. simpl shr_m. intros Hm.
  unfold shifted_right. change (2 ^ 1) with 2.
  destruct m as [|p|p]; [| |lia].
  - simpl. split; [reflexivity|]. intros _ -> ->. split; reflexivity.
  - destruct p as [p|p|]; simpl shr_1; simpl shr_m; simpl shr_r; simpl shr_s.
    + split; [rewrite Pos2Z.inj_xI; apply Z.div_unique with 1; lia|].
      intros Habs. lia.
    + split; [rewrite Pos2Z.inj_xO; apply Z.div_unique with 0; lia|].
      intros _ -> ->. split; reflexivity.
    + split; [reflexivity|]. intros Habs. lia.
Qed.

Lemma shifted_nonneg (k : Z) (x y : shr_record) :
  0 <= k -> 0 <= shr_m x -> shifted_right k x y -> 0 <= shr_m y.
Proof.
  intros Hk Hx [Hy _]. rewrite Hy. apply Z.div_pos; [assumption|].
  apply pow2_pos. assumption.
Qed.

Lemma shifted_trans (a b : Z) (x y z : shr_record) :
  0 <= a -> 0 <= b -> 0 <= shr_m x ->
  shifted_right a x y -> shifted_right b y z -> shifted_right (a + b) x z.
Proof.
  intros Ha Hb Hx Hxy Hyz.
  pose proof (shifted_nonneg a x y Ha Hx Hxy) as Hy0.
  destruct Hxy as [Hy Ey], Hyz as [Hz Ez].
  pose proof (pow2_pos a Ha) as Pa. pose proof (pow2_pos b Hb) as Pb.
  split.
  - rewrite Hz, Hy, pow2_split by assumption.
    apply Z.div_div; lia.
  - intros Hexact Hr Hs.
    rewrite pow2_split in Hexact by assumption.
    assert (Hxa : shr_m x = shr_m y * 2 ^ a).
    { rewrite Hy.
      replace (shr_m x) with (shr_m z * 2 ^ b * 2 ^ a) at 2 by lia.
      rewrite Z.div_mul by lia. lia. }
    assert (Hyb : shr_m y = shr_m z * 2 ^ b).
    { apply (Z.mul_cancel_r _ _ (2 ^ a)); lia. }
    destruct (Ey Hxa Hr Hs) as [Hr' Hs'].
    exact (Ez Hyb Hr' Hs').
Qed.

Lemma iter_pos_shifted (p : positive) :
  forall x, 0 <= shr_m x -> shifted_right (Zpos p) x (iter_pos shr_1 p x).
Proof.
  induction p as [p IH|p IH|]; intros x Hx; simpl iter_pos.
  - pose proof (shr_1_shifted x Hx) as H1.
    pose proof (shifted_nonneg 1 _ _ ltac:(lia) Hx H1) as Hx1.
    pose proof (IH _ Hx1) as H2.
    pose proof (shifted_nonneg (Zpos p) _ _ ltac:(lia) Hx1 H2) as Hx2.
    pose proof (IH _ Hx2) as H3.
    replace (Zpos p~1) with (1 + (Zpos p + Zpos p)) by lia.
    apply (shifted_trans 1 (Zpos p + Zpos p) _ _ _ ltac:(lia) ltac:(lia) Hx H1).
    apply (shifted_trans (Zpos p) (Zpos p) _ _ _ ltac:(lia) ltac:(lia) Hx1 H2 H3).
  - pose proof (IH _ Hx) as H2.
    pose proof (shifted_nonneg (Zpos p) _ _ ltac:(lia) Hx H2) as Hx2.
    pose proof (IH _ Hx2) as H3.
    replace (Zpos p~0) with (Zpos p + Zpos p) by lia.
    apply (shifted_trans (Zpos p) (Zpos p) _ _ _ ltac:(lia) ltac:(lia) Hx H2 H3).
  - apply shr_1_shifted. exact Hx.
Qed.

(** [shr] by any amount, none included. *)
Lemma shr_shifted (x : shr_record) (e n : Z) :
  0 <= shr_m x ->
  shifted_right (Z.max n 0) x (fst (shr x e n))
  /\ snd (shr x e n) = e + Z.max n 0.
Proof.
  intros Hx. destruct n as [|p|p]; simpl shr; simpl fst; simpl snd.
  - split; [|lia]. split; [simpl; rewrite Z.div_1_r; reflexivity|].
    intros _ Hr Hs. split; assumption.
  - replace (Z.max (Zpos p) 0) with (Zpos p) by lia.
    split; [apply iter_pos_shifted; exact Hx|reflexivity].
  - replace (Z.max (Zneg p) 0) with 0 by lia.
    split; [|lia]. split; [simpl; rewrite Z.div_1_r; reflexivity|].
    intros _ Hr Hs. split; assumption.
Qed.

(** Rounding to nearest moves up by at most one, and not at all when
    nothing was lost. *)
Lemma round_nearest_even_range (m : Z) (l : location) :
  (round_nearest_even m l = m \/ round_nearest_even m l = m + 1)
  /\ (l = loc_Exact -> round_nearest_even m l = m).
Proof.
  destruct l as [|[| |]]; simpl; try (split; [auto|intros; try discriminate; auto]).
  destruct (Z.even m); auto.
Qed.

Lemma loc_exact (x : shr_record) :
  shr_r x = false -> shr_s x = false -> loc_of_shr_record x = loc_Exact.
Proof. destruct x as [m r s]. simpl. intros -> ->. reflexivity. Qed.

Lemma digits_unique (m : positive) (n : Z) :
  1 <= n -> 2 ^ (n - 1) <= Zpos m < 2 ^ n -> digits m = n.
Proof.
  intros Hn [Hl Hu]. pose proof (digits_bounds m) as [Dl Du].
  pose proof (digits_pos m) as Hd.
  assert (n - 1 < digits m) by (apply pow2_lt_inv; lia).
  assert (digits m - 1 < n) by (apply pow2_lt_inv; lia).
  lia.
Qed.

(** Between two neighbours of the 53-bit grid at exponent [e1] there is
    no binary64 value. *)
Lemma no_value_between (m1 e1 : Z) (a : positive) (b : Z) :
  2 ^ 52 <= m1 -> -1074 <= e1 -> canonical a b ->
  m1 * 2 ^ (e1 + 1074) < value a b ->
  value a b < (m1 + 1) * 2 ^ (e1 + 1074) -> False.
Proof.
  intros Hm He C Hl Hu.
  pose proof (canonical_facts _ _ C) as (Hb & Hd & _).
  pose proof (pow2_pos (e1 + 1074) ltac:(lia)) as Pu.
  destruct (Z_lt_le_dec b e1) as [Hlt|Hge].
  - pose proof (value_bounds a b Hb) as [_ Hv].
    assert (H : 2 ^ (digits a + (b + 1074)) <= 2 ^ (52 + (e1 + 1074)))
      by (apply pow2_le; pose proof (digits_pos a); lia).
    rewrite (pow2_split 52 (e1 + 1074)) in H by lia.
    assert (2 ^ 52 * 2 ^ (e1 + 1074) <= m1 * 2 ^ (e1 + 1074))
      by (apply Z.mul_le_mono_nonneg_r; lia).
    lia.
  - unfold value in Hl, Hu.
    replace (b + 1074) with ((b - e1) + (e1 + 1074)) in Hl, Hu by lia.
    rewrite (pow2_split (b - e1) (e1 + 1074)) in Hl, Hu by lia.
    rewrite Z.mul_assoc in Hl, Hu.
    apply Z.mul_lt_mono_pos_r in Hl; [|lia].
    apply Z.mul_lt_mono_pos_r in Hu; [|lia]. lia.
Qed.

(** The first step of rounding: the mantissa is cut down to 53 bits. *)
Lemma shr_fexp_exact (M e : Z) :
  0 < M -> -1074 <= e ->
  shr_m (fst (shr_fexp prec emax M e loc_Exact))
    = M / 2 ^ Z.max (Zdigits2 M - 53) 0
  /\ snd (shr_fexp prec emax M e loc_Exact) = e + Z.max (Zdigits2 M - 53) 0
  /\ (M = shr_m (fst (shr_fexp prec emax M e loc_Exact))
            * 2 ^ Z.max (Zdigits2 M - 53) 0 ->
      loc_of_shr_record (fst (shr_fexp prec emax M e loc_Exact)) = loc_Exact).
Proof.
  intros HM He. unfold shr_fexp. rewrite fexp_eq.
  change (shr_record_of_loc M loc_Exact)
    with {| shr_m := M; shr_r := false; shr_s := false |}.
  set (n := Z.max (Zdigits2 M + e - 53) (-1074) - e).
  assert (Hn : Z.max n 0 = Z.max (Zdigits2 M - 53) 0) by (unfold n; lia).
  destruct (shr_shifted {| shr_m := M; shr_r := false; shr_s := false |} e n)
    as [[Hm Hex] Hs]; [simpl; lia|].
  rewrite Hn in Hm, Hex, Hs. cbn [shr_m shr_r shr_s] in Hm, Hex.
  split; [exact Hm|]. split; [exact Hs|].
  intros Hexact. destruct (Hex Hexact eq_refl eq_refl) as [Hr Hs'].
  apply loc_exact; assumption.
Qed.

Lemma binary_round_aux_rounds (s : bool) (m : positive) (e : Z) :
  -1074 <= e -> 53 <= digits m \/ e = -1074 ->
  rounds_to s (value m e) (binary_round_aux prec emax s (Zpos m) e loc_Exact).
Proof.
  intros He Hnorm. unfold binary_round_aux.
  pose proof (shr_fexp_exact (Zpos m) e ltac:(lia) He) as H1.
  destruct (shr_fexp prec emax (Zpos m) e loc_Exact) as [x1 e1].
  cbn [fst snd] in H1. destruct H1 as (Hm1 & He1 & Hx1).
  change (Zdigits2 (Zpos m)) with (digits m) in Hm1, He1, Hx1.
  pose proof (digits_bounds m) as [Dl Du]. pose proof (digits_pos m) as Dp.
  pose proof (round_nearest_even_range (shr_m x1) (loc_of_shr_record x1))
    as [Hr Hrx].
  set (m2 := round_nearest_even (shr_m x1) (loc_of_shr_record x1)) in *.
  destruct (Z_le_gt_dec (digits m) 53) as [Hsmall|Hbig].
  - (* nothing to cut *)
    replace (Z.max (digits m - 53) 0) with 0 in Hm1, He1, Hx1 by lia.
    change (2 ^ 0) with 1 in Hm1, Hx1. rewrite Z.div_1_r in Hm1.
    assert (E2 : m2 = Zpos m) by (rewrite <- Hm1; apply Hrx, Hx1; lia).
    clearbody m2. subst m2.
    pose proof (shr_fexp_exact (Zpos m) e1 ltac:(lia) ltac:(lia)) as H2.
    destruct (shr_fexp prec emax (Zpos m) e1 loc_Exact) as [x2 e2].
    cbn [fst snd] in H2. destruct H2 as (Hm2 & He2 & _).
    change (Zdigits2 (Zpos m)) with (digits m) in Hm2, He2.
    replace (Z.max (digits m - 53) 0) with 0 in Hm2, He2 by lia.
    change (2 ^ 0) with 1 in Hm2. rewrite Z.div_1_r in Hm2.
    rewrite Hm2. exists m, e. replace e2 with e by lia.
    split; [reflexivity|]. split; [apply canonical_intro; lia|].
    split; intros a b _ H; exact H.
  - (* the mantissa is cut to 53 bits, then rounded *)
    set (k := digits m - 53) in *.
    replace (Z.max k 0) with k in Hm1, He1, Hx1 by lia.
    pose proof (pow2_pos k ltac:(lia)) as Pk.
    assert (B1 : 2 ^ 52 <= shr_m x1 < 2 ^ 53).
    { rewrite Hm1. split.
      - apply Z.div_le_lower_bound; [exact Pk|].
        rewrite <- (pow2_split k 52) by lia.
        replace (k + 52) with (digits m - 1) by (unfold k; lia). exact Dl.
      - apply Z.div_lt_upper_bound; [exact Pk|].
        rewrite <- (pow2_split k 53) by lia.
        replace (k + 53) with (digits m) by (unfold k; lia). exact Du. }
    assert (Hlow : shr_m x1 * 2 ^ k <= Zpos m < (shr_m x1 + 1) * 2 ^ k).
    { rewrite Hm1.
      pose proof (Z.mul_div_le (Zpos m) (2 ^ k) Pk).
      pose proof (Z.mul_succ_div_gt (Zpos m) (2 ^ k) Pk). lia. }
    set (m1 := shr_m x1) in *. clearbody m1.
    assert (Hexact : Zpos m = m1 * 2 ^ k -> m2 = m1).
    { intros E. apply Hrx. apply Hx1. exact E. }
    clearbody m2. clear Hrx Hx1 Hm1.
    pose proof (pow2_pos (e + 1074) ltac:(lia)) as Pe.
    (* the value before and after the cut *)
    assert (HV : value m e = Zpos m * 2 ^ (e + 1074)) by reflexivity.
    assert (Hu : 2 ^ (e1 + 1074) = 2 ^ k * 2 ^ (e + 1074)).
    { rewrite He1. replace (e + k + 1074) with (k + (e + 1074)) by lia.
      apply pow2_split; lia. }
    assert (Hbelow : m1 * 2 ^ (e1 + 1074) <= value m e).
    { rewrite Hu, Z.mul_assoc, HV. apply Z.mul_le_mono_nonneg_r; lia. }
    assert (Habove : value m e < (m1 + 1) * 2 ^ (e1 + 1074)).
    { rewrite Hu, Z.mul_assoc, HV. apply Z.mul_lt_mono_pos_r; lia. }
    assert (Hsame : value m e = m1 * 2 ^ (e1 + 1074) -> m2 = m1).
    { intros E. apply Hexact. rewrite Hu, Z.mul_assoc, HV in E.
      apply Z.mul_cancel_r in E; lia. }
    assert (Hm2pos : 0 < m2) by lia.
    pose proof (shr_fexp_exact m2 e1 Hm2pos ltac:(lia)) as H2.
    destruct (shr_fexp prec emax m2 e1 loc_Exact) as [x2 e2].
    cbn [fst snd] in H2. destruct H2 as (Hm2 & He2 & _).
    destruct m2 as [|p2|p2]; try lia.
    change (Zdigits2 (Zpos p2)) with (digits p2) in Hm2, He2.
    assert (Hres : exists mr er,
               shr_m x2 = Zpos mr /\ e2 = er /\ canonical mr er
               /\ value mr er = Zpos p2 * 2 ^ (e1 + 1074)).
    { destruct (Z_lt_le_dec (Zpos p2) (2 ^ 53)) as [Hlt|Hge].
      - assert (D2 : digits p2 = 53)
          by (apply digits_unique; [lia|change (53 - 1) with 52; lia]).
        rewrite D2 in Hm2, He2. change (Z.max (53 - 53) 0) with 0 in Hm2, He2.
        change (2 ^ 0) with 1 in Hm2. rewrite Z.div_1_r in Hm2.
        exists p2, e1. split; [exact Hm2|]. split; [lia|].
        split; [apply canonical_intro; lia|reflexivity].
      - assert (E53 : Zpos p2 = 2 ^ 53) by lia.
        assert (D2 : digits p2 = 54).
        { apply digits_unique; [lia|]. rewrite E53.
          change (54 - 1) with 53. split; [lia|].
          apply Z.pow_lt_mono_r; lia. }
        rewrite D2 in Hm2, He2. change (Z.max (54 - 53) 0) with 1 in Hm2, He2.
        rewrite E53 in Hm2. change (2 ^ 53 / 2 ^ 1) with (2 ^ 52) in Hm2.
        assert (P52 : exists q, 2 ^ 52 = Zpos q /\ digits q = 53).
        { exists (2 ^ 52)%positive. split; reflexivity. }
        destruct P52 as (q & Eq & Dq).
        exists q, (e1 + 1). split; [lia|]. split; [lia|].
        split; [apply canonical_intro; lia|].
        unfold value. rewrite <- Eq, E53.
        replace (e1 + 1 + 1074) with (1 + (e1 + 1074)) by lia.
        rewrite (pow2_split 1 (e1 + 1074)) by lia.
        change (2 ^ 53) with (2 ^ 52 * 2 ^ 1). lia. }
    destruct Hres as (mr & er & Em & Ee & Cr & Vr).
    rewrite Em, Ee. exists mr, er.
    change (emax - prec) with 971.
    split; [reflexivity|]. split; [exact Cr|].
    pose proof (pow2_pos (e1 + 1074) ltac:(lia)) as Pe1.
    split; intros a b Cab Hab; rewrite Vr.
    + destruct (Z_le_gt_dec (value a b) (m1 * 2 ^ (e1 + 1074))) as [Hle|Hgt].
      * destruct Hr as [-> | ->]; lia.
      * destruct Hr as [E | ->]; [|lia].
        exfalso. apply (no_value_between m1 e1 a b); try assumption; lia.
    + destruct Hr as [-> | E]; [lia|].
      destruct (Z_le_gt_dec ((m1 + 1) * 2 ^ (e1 + 1074)) (value a b))
        as [Hle|Hgt]; [rewrite E; exact Hle|].
      exfalso. apply (no_value_between m1 e1 a b); try assumption; lia.
Qed.

(** ** Aligning mantissas to the left *)

Lemma iter_xO (d m : positive) :
  Zpos (Pos.iter xO m d) = Zpos m * 2 ^ Zpos d.
Proof.
  induction d as [|d IH] using Pos.peano_ind.
  - simpl. lia.
  - rewrite Pos.iter_succ, Pos2Z.inj_xO, IH, Pos2Z.inj_succ.
    rewrite Z.pow_succ_r by lia. lia.
Qed.

Lemma shl_align_spec (m : positive) (e e' : Z) :
  Zpos (fst (shl_align m e e')) = Zpos m * 2 ^ (e - Z.min e e')
  /\ snd (shl_align m e e') = Z.min e e'.
Proof.
  unfold shl_align. destruct (e' - e) as [|d|d] eqn:E; cbn [fst snd].
  - replace (Z.min e e') with e by lia. rewrite Z.sub_diag. simpl. lia.
  - replace (Z.min e e') with e by lia. rewrite Z.sub_diag. simpl. lia.
  - replace (Z.min e e') with e' by lia.
    replace (e - e') with (Zpos d) by lia.
    split; [apply iter_xO|reflexivity].
Qed.

Lemma digits_shift (m q : positive) (k : Z) :
  0 <= k -> Zpos q = Zpos m * 2 ^ k -> digits q = digits m + k.
Proof.
  intros Hk E. pose proof (digits_bounds m) as [Dl Du].
  pose proof (digits_pos m) as Dp. pose proof (pow2_pos k Hk) as Pk.
  apply digits_unique; [lia|]. rewrite E. split.
  - replace (digits m + k - 1) with (digits m - 1 + k) by lia.
    rewrite pow2_split by lia. apply Z.mul_le_mono_nonneg_r; lia.
  - rewrite pow2_split by lia. apply Z.mul_lt_mono_pos_r; lia.
Qed.

Lemma value_shift (m q : positive) (e e' : Z) :
  -1074 <= e' <= e -> Zpos q = Zpos m * 2 ^ (e - e') ->
  value q e' = value m e.
Proof.
  intros He E. unfold value. rewrite E.
  replace (e + 1074) with ((e - e') + (e' + 1074)) by lia.
  rewrite (pow2_split (e - e') (e' + 1074)) by lia. lia.
Qed.

Lemma binary_round_rounds (s : bool) (m : positive) (e : Z) :
  -1074 <= e -> rounds_to s (value m e) (binary_round prec emax s m e).
Proof.
  intros He. unfold binary_round. rewrite fexp_eq.
  change (Zpos (digits2_pos m)) with (digits m).
  pose proof (shl_align_spec m e (Z.max (digits m + e - 53) (-1074)))
    as [Hf Hs].
  destruct (shl_align m e (Z.max (digits m + e - 53) (-1074))) as [mz ez].
  cbn [fst snd] in Hf, Hs.
  pose proof (digits_pos m) as Dp.
  assert (Hez : -1074 <= ez <= e) by lia.
  rewrite <- Hs in Hf.
  pose proof (digits_shift m mz (e - ez) ltac:(lia) Hf) as Dz.
  rewrite <- (value_shift m mz e ez Hez Hf).
  apply binary_round_aux_rounds; lia.
Qed.

(** ** Comparing binary64 numbers of one sign *)

Lemma SFleb_positive (a c : positive) (b d : Z) :
  canonical a b -> canonical c d -> value a b <= value c d ->
  SFleb (S754_finite false a b) (S754_finite false c d) = true.
Proof.
  intros Ca Cc Hv.
  pose proof (canonical_value_le_exponent _ _ _ _ Ca Cc Hv) as He.
  pose proof (canonical_facts _ _ Ca) as (Hb & _).
  unfold SFleb, SFcompare.
  destruct (Z.compare_spec b d) as [E|L|G]; [|reflexivity|lia].
  subst d. pose proof (value_le_same_exponent _ _ _ Hb Hv) as Hm.
  change (Pos.compare_cont Eq a c) with (Pos.compare a c).
  destruct (Pos.compare_spec a c); [reflexivity|reflexivity|lia].
Qed.

Lemma SFleb_negative (a c : positive) (b d : Z) :
  canonical a b -> canonical c d -> value c d <= value a b ->
  SFleb (S754_finite true a b) (S754_finite true c d) = true.
Proof.
  intros Ca Cc Hv.
  pose proof (canonical_value_le_exponent _ _ _ _ Cc Ca Hv) as He.
  pose proof (canonical_facts _ _ Cc) as (Hd & _).
  unfold SFleb, SFcompare.
  destruct (Z.compare_spec b d) as [E|L|G]; [|lia|reflexivity].
  subst d. pose proof (value_le_same_exponent _ _ _ Hd Hv) as Hm.
  change (Pos.compare_cont Eq a c) with (Pos.compare a c).
  destruct (Pos.compare_spec a c); [reflexivity|lia|reflexivity].
Qed.

(** ** Adding an addend of known sign *)

Lemma valid_finite (s : bool) (m : positive) (e : Z) :
  valid (S754_finite s m e) -> canonical m e /\ e <= 971.
Proof.
  unfold valid, SpecFloat.valid_binary, bounded. intros H.
  apply andb_true_iff in H. destruct H as [C B].
  split; [exact C|]. apply Z.leb_le in B. exact B.
Qed.

Lemma aligned_value (m : positive) (e e' : Z) :
  -1074 <= e' -> e' <= e ->
  Zpos (fst (shl_align m e e')) * 2 ^ (e' + 1074) = value m e.
Proof.
  intros H1 H2. destruct (shl_align_spec m e e') as [Hf _].
  replace (Z.min e e') with e' in Hf by lia.
  apply (value_shift m _ e e'); [lia|exact Hf].
Qed.

Lemma SFadd_upper (x d : spec_float) :
  valid x -> valid d -> finite x -> signed false d ->
  SFleb x (SFadd prec emax x d) = true.
Proof.
  intros Vx Vd Fx Sd.
  destruct x as [sx|sx| |sx mx ex]; try contradiction;
    destruct d as [sd|sd| |sd md ed]; try contradiction;
    cbn [signed] in Sd; subst sd.
  - destruct sx; reflexivity.
  - reflexivity.
  - reflexivity.
  - cbn [SFadd]. unfold SFleb, SFcompare.
    rewrite Z.compare_refl.
    change (Pos.compare_cont Eq mx mx) with (Pos.compare mx mx).
    rewrite Pos.compare_refl. destruct sx; reflexivity.
  - destruct sx; reflexivity.
  - destruct (valid_finite _ _ _ Vx) as [Cx Bx].
    destruct (valid_finite _ _ _ Vd) as [Cd Bd].
    pose proof (canonical_facts _ _ Cx) as (Lx & _).
    pose proof (canonical_facts _ _ Cd) as (Ld & _).
    cbn [SFadd]. set (ez := Z.min ex ed).
    pose proof (aligned_value mx ex ez ltac:(lia) ltac:(lia)) as HX.
    pose proof (aligned_value md ed ez ltac:(lia) ltac:(lia)) as HD.
    set (X := fst (shl_align mx ex ez)) in *.
    set (D := fst (shl_align md ed ez)) in *.
    pose proof (pow2_pos (ez + 1074) ltac:(lia)) as Pz.
    unfold cond_Zopp at 2.
    destruct sx; unfold cond_Zopp.
    + destruct (- Zpos X + Zpos D) as [|p|p] eqn:E; cbn [binary_normalize].
      * reflexivity.
      * destruct (binary_round_rounds false p ez ltac:(lia))
          as (mr & er & -> & _).
        destruct (er <=? 971); reflexivity.
      * destruct (binary_round_rounds true p ez ltac:(lia))
          as (mr & er & -> & Cr & _ & UB).
        assert (Hv : value mr er <= value mx ex).
        { apply UB; [exact Cx|]. unfold value at 1. rewrite <- HX.
          apply Z.mul_le_mono_nonneg_r; lia. }
        pose proof (canonical_value_le_exponent _ _ _ _ Cr Cx Hv) as Her.
        replace (er <=? 971) with true by (symmetry; apply Z.leb_le; lia).
        apply SFleb_negative; assumption.
    + destruct (Zpos X + Zpos D) as [|p|p] eqn:E; try lia.
      cbn [binary_normalize].
      destruct (binary_round_rounds false p ez ltac:(lia))
        as (mr & er & -> & Cr & LB & _).
      assert (Hv : value mx ex <= value mr er).
      { apply LB; [exact Cx|]. unfold value at 2. rewrite <- HX.
        apply Z.mul_le_mono_nonneg_r; lia. }
      destruct (er <=? 971); [|reflexivity].
      apply SFleb_positive; assumption.
Qed.

Lemma SFadd_lower (x d : spec_float) :
  valid x -> valid d -> finite x -> signed true d ->
  SFleb (SFadd prec emax x d) x = true.
Proof.
  intros Vx Vd Fx Sd.
  destruct x as [sx|sx| |sx mx ex]; try contradiction;
    destruct d as [sd|sd| |sd md ed]; try contradiction;
    cbn [signed] in Sd; subst sd.
  - destruct sx; reflexivity.
  - reflexivity.
  - reflexivity.
  - cbn [SFadd]. unfold SFleb, SFcompare.
    rewrite Z.compare_refl.
    change (Pos.compare_cont Eq mx mx) with (Pos.compare mx mx).
    rewrite Pos.compare_refl. destruct sx; reflexivity.
  - destruct sx; reflexivity.
  - destruct (valid_finite _ _ _ Vx) as [Cx Bx].
    destruct (valid_finite _ _ _ Vd) as [Cd Bd].
    pose proof (canonical_facts _ _ Cx) as (Lx & _).
    pose proof (canonical_facts _ _ Cd) as (Ld & _).
    cbn [SFadd]. set (ez := Z.min ex ed).
    pose proof (aligned_value mx ex ez ltac:(lia) ltac:(lia)) as HX.
    pose proof (aligned_value md ed ez ltac:(lia) ltac:(lia)) as HD.
    set (X := fst (shl_align mx ex ez)) in *.
    set (D := fst (shl_align md ed ez)) in *.
    pose proof (pow2_pos (ez + 1074) ltac:(lia)) as Pz.
    unfold cond_Zopp at 2.
    destruct sx; unfold cond_Zopp.
    + destruct (- Zpos X + - Zpos D) as [|p|p] eqn:E; try lia.
      cbn [binary_normalize].
      destruct (binary_round_rounds true p ez ltac:(lia))
        as (mr & er & -> & Cr & LB & _).
      assert (Hv : value mx ex <= value mr er).
      { apply LB; [exact Cx|]. unfold value at 2. rewrite <- HX.
        apply Z.mul_le_mono_nonneg_r; lia. }
      destruct (er <=? 971); [|reflexivity].
      apply SFleb_negative; assumption.
    + destruct (Zpos X + - Zpos D) as [|p|p] eqn:E; cbn [binary_normalize].
      * reflexivity.
      * destruct (binary_round_rounds false p ez ltac:(lia))
          as (mr & er & -> & Cr & _ & UB).
        assert (Hv : value mr er <= value mx ex).
        { apply UB; [exact Cx|]. unfold value at 1. rewrite <- HX.
          apply Z.mul_le_mono_nonneg_r; lia. }
        pose proof (canonical_value_le_exponent _ _ _ _ Cr Cx Hv) as Her.
        replace (er <=? 971) with true by (symmetry; apply Z.leb_le; lia).
        apply SFleb_positive; assumption.
      * destruct (binary_round_rounds true p ez ltac:(lia))
          as (mr & er & -> & _).
        destruct (er <=? 971); reflexivity.
Qed.

(** ** Multiplying numbers of known sign *)

Lemma shr_fexp_nonneg (M e : Z) (l : location) :
  0 <= M -> 0 <= shr_m (fst (shr_fexp prec emax M e l)).
Proof.
  intros HM. unfold shr_fexp.
  set (n := fexp prec emax (Zdigits2 M + e) - e).
  assert (H0 : 0 <= shr_m (shr_record_of_loc M l))
    by (destruct l as [|[| |]]; exact HM).
  destruct (shr_shifted (shr_record_of_loc M l) e n H0) as [Hs _].
  apply (shifted_nonneg (Z.max n 0) _ _ ltac:(lia) H0 Hs).
Qed.

Lemma binary_round_aux_signed (s : bool) (M e : Z) (l : location) :
  0 <= M -> signed s (binary_round_aux prec emax s M e l).
Proof.
  intros HM. unfold binary_round_aux.
  pose proof (shr_fexp_nonneg M e l HM) as H1.
  destruct (shr_fexp prec emax M e l) as [x1 e1]. cbn [fst] in H1.
  pose proof (round_nearest_even_range (shr_m x1) (loc_of_shr_record x1))
    as [Hr _].
  set (m2 := round_nearest_even (shr_m x1) (loc_of_shr_record x1)) in *.
  pose proof (shr_fexp_nonneg m2 e1 loc_Exact ltac:(lia)) as H2.
  destruct (shr_fexp prec emax m2 e1 loc_Exact) as [x2 e2]. cbn [fst] in H2.
  destruct (shr_m x2) as [|p|p]; [reflexivity| |lia].
  destruct (e2 <=? emax - prec); reflexivity.
Qed.

Lemma SFmul_signed (sx sy : bool) (x y : spec_float) :
  signed sx x -> signed sy y -> nonzero_finite y ->
  signed (xorb sx sy) (SFmul prec emax x y).
Proof.
  intros Sx Sy Fy.
  destruct y as [sy'|sy'| |sy' my ey]; try contradiction.
  cbn [signed] in Sy. subst sy'.
  destruct x as [sx'|sx'| |sx' mx ex]; try contradiction;
    cbn [signed] in Sx; subst sx'; cbn [SFmul signed]; try reflexivity.
  apply binary_round_aux_signed. lia.
Qed.

(** ** Reading the tests on primitive floats *)

Lemma ltb_zero_signed (x : float) :
  (0 <? x)%float = true ->
  signed false (Prim2SF x) /\ Prim2SF x <> S754_zero false.
Proof.
  rewrite ltb_spec. change (Prim2SF 0%float) with (S754_zero false).
  destruct (Prim2SF x) as [s|s| |s m e]; unfold SFltb, SFcompare;
    try destruct s; try discriminate; intros _; split;
    try reflexivity; discriminate.
Qed.

Lemma is_finite_finite (x : float) :
  is_finite x = true -> finite (Prim2SF x).
Proof.
  unfold is_finite, is_nan, is_infinity.
  rewrite !eqb_spec, abs_spec.
  change (Prim2SF infinity) with (S754_infinity false).
  destruct (Prim2SF x) as [s|s| |s m e]; try destruct s; cbn;
    try discriminate; intros _; exact I.
Qed.

Lemma positive_finite (x : float) :
  (0 <? x)%float = true -> (x <? infinity)%float = true ->
  signed false (Prim2SF x) /\ nonzero_finite (Prim2SF x).
Proof.
  rewrite !ltb_spec. change (Prim2SF 0%float) with (S754_zero false).
  change (Prim2SF infinity) with (S754_infinity false).
  destruct (Prim2SF x) as [s|s| |s m e]; unfold SFltb, SFcompare;
    try destruct s; try discriminate; intros _ _; split;
    try reflexivity; exact I.
Qed.

Lemma half_width_signed (c se tq : float) (s : bool) :
  signed s (Prim2SF c) -> nonzero_finite (Prim2SF c) ->
  (0 <? se)%float = true ->
  (0 <? tq)%float = true -> (tq <? infinity)%float = true ->
  signed s (Prim2SF (se * c * tq)%float).
Proof.
  intros Sc Fc Hse Htq Hfin.
  destruct (ltb_zero_signed se Hse) as [Sse _].
  destruct (positive_finite tq Htq Hfin) as [St Ft].
  rewrite !mul_spec. unfold SF64mul.
  replace s with (xorb (xorb false s) false) by (destruct s; reflexivity).
  apply SFmul_signed; [|exact St|exact Ft].
  apply SFmul_signed; assumption.
Qed.

(** C3.  On doubles the bounds of [check_mean]'s interval lie on either
    side of the mean, which they may touch: when the mean is finite, the
    standard error positive and the quantile [t.ppf(0.975)] positive and
    finite, [ci[0] <= mean <= ci[1]] for
    [ci = mean + sem*np.array([-1,1])*t.ppf(0.975)] as binary64 computes
    it.  Neither bound is NaN, and an overflow of the half width sends
    the bounds to the infinities of the right sign. *)
Theorem ci_weakly_brackets_mean (m se tq : float) :
  is_finite m = true ->
  (0 <? se)%float = true ->
  (0 <? tq)%float = true -> (tq <? infinity)%float = true ->
  (nth 0 (plus_minus m se tq) 0 <=? m)%float = true
  /\ (m <=? nth 1 (plus_minus m se tq) 0)%float = true.
Proof.
  intros Hm Hse Htq Hfin.
  pose proof (is_finite_finite m Hm) as Fm.
  unfold plus_minus, scalar_add_arr, arr_mul_scalar, scalar_mul_arr.
  cbn [map nth].
  rewrite !leb_spec, !add_spec. unfold SF64add. split.
  - apply SFadd_lower; try apply Prim2SF_valid; [exact Fm|].
    apply half_width_signed; try assumption; [reflexivity|exact I].
  - apply SFadd_upper; try apply Prim2SF_valid; [exact Fm|].
    apply half_width_signed; try assumption; [reflexivity|exact I].
Qed.

Lemma ci_weakly_brackets_mean_witness :
  (nth 0 (plus_minus 6753.64 344.36 2.228) 0 <=? 6753.64)%float = true
  /\ (6753.64 <=? nth 1 (plus_minus 6753.64 344.36 2.228) 0)%float = true.
Proof. apply ci_weakly_brackets_mean; reflexivity. Defined.

(** The bracket is not strict on doubles.  For the sample of nine times
    [1.0] and once [1.0000000000000002] the mean is [1.0], the standard
    error [2.3405556457178003e-17] and the quantile of Student's t on 9
    degrees of freedom [2.2621571627409915]: the half width is below
    half the spacing of the doubles around [1.0], and both bounds are
    the mean itself. *)
Lemma ci_bounds_can_equal_mean :
  let m := 1%float in
  let se := 2.3405556457178003e-17%float in
  let tq := 2.2621571627409915%float in
  (0 <? se)%float = true
  /\ plus_minus m se tq = [m; m]
  /\ (nth 0 (plus_minus m se tq) 0 <? m)%float = false
  /\ (m <? nth 1 (plus_minus m se tq) 0)%float = false.
Proof. repeat split. Qed.
End Binary64Facts.


(* ------------------------------------------------------------------ *)
(** * The decomposition handed on by [acf_and_pacf] *)

Section DecompositionFacts.
Import ISP_TimeSeries.
Context {W : Type}.
Variable lib : forall B, libcall B -> W -> result B * W.

(** X6.  [acf_and_pacf] decomposes the column [co2] of its argument,
    additively with period 12 and the trend extrapolated, and returns the
    object [seasonal_decompose] answered, untouched: the script itself
    looks at no component of it. *)
Lemma acf_and_pacf_returns_decomposition
  (st : style) (df result_add : pyobj) (w : W) :
  outcome (run lib (acf_and_pacf st df) w) = Returned result_add ->
  exists co2,
    firstn 2 (trace (run lib (acf_and_pacf st df) w))
    = [EvCall (df_getitem df "co2") (Returned co2);
       EvCall (seasonal_decompose co2 "additive" 12 "freq")
         (Returned result_add)].
Proof.
  unfold outcome, trace, acf_and_pacf, showData.
  destruct st; simpl;
    repeat (next_reply lib; try (intros; discriminate));
    intros [= <-]; eexists; reflexivity.
Qed.
End DecompositionFacts.


(* ------------------------------------------------------------------ *)
(** * More facts about the interpreter *)

Section MoreRunFacts.
Context {W : Type}.
Variable lib : forall B, libcall B -> W -> result B * W.

(** Without [try], a library exception is the last thing that happens. *)
Lemma own_raise_is_last (P : exn -> Prop) {A} (p : prog A) :
  own_raises P p ->
  forall w ev e,
    In ev (trace (run lib p w)) -> raised_in ev = Some e ->
    outcome (run lib p w) = Raised e
    /\ exists tr0, trace (run lib p w) = tr0 ++ [ev].
Proof.
  induction 1 as [A a|A B p k Hp IHp Hk IHk|A c|s|A e0 He0];
    intros w ev e Hin Hev.
  - destruct Hin.
  - rewrite run_bind in *.
    destruct (run lib p w) as [[[b|e1] w1] tr1] eqn:E1.
    + destruct (run lib (k b) w1) as [[r2 w2] tr2] eqn:E2.
      unfold trace, outcome in *; simpl in *.
      apply in_app_or in Hin as [Hin|Hin].
      * specialize (IHp w ev e). rewrite E1 in IHp.
        destruct (IHp Hin Hev) as [Hout _]. discriminate Hout.
      * specialize (IHk b w1 ev e). rewrite E2 in IHk.
        destruct (IHk Hin Hev) as [Hout [tr0 Htr]].
        simpl in Hout, Htr. subst.
        split; [reflexivity|]. exists (tr1 ++ tr0). apply app_assoc.
    + specialize (IHp w ev e). rewrite E1 in IHp.
      destruct (IHp Hin Hev) as [Hout Htr].
      unfold outcome in *; simpl in *. injection Hout as ->.
      split; [reflexivity|exact Htr].
  - rewrite run_call in *. destruct Hin as [<-|[]].
    simpl in Hev. unfold outcome; simpl.
    destruct (fst (lib A c w)); [discriminate|].
    injection Hev as ->. split; [reflexivity|]. exists []. reflexivity.
  - destruct Hin as [<-|[]]. discriminate.
  - destruct Hin.
Qed.

(** Without [try], what a command raises came out of its last library
    call or is one of its own exceptions. *)
Lemma own_raise_origin (P : exn -> Prop) {A} (p : prog A) :
  own_raises P p ->
  forall w e,
    outcome (run lib p w) = Raised e ->
    (exists tr0 ev, trace (run lib p w) = tr0 ++ [ev] /\ raised_in ev = Some e)
    \/ P e.
Proof.
  induction 1 as [A a|A B p k Hp IHp Hk IHk|A c|s|A e0 He0]; intros w e Hout.
  - discriminate.
  - rewrite run_bind in *.
    destruct (run lib p w) as [[[b|e1] w1] tr1] eqn:E1.
    + destruct (run lib (k b) w1) as [[r2 w2] tr2] eqn:E2.
      unfold outcome in Hout; simpl in Hout. subst r2.
      destruct (IHk b w1 e) as [[tr0 [ev [Htr Hev]]]|HP];
        [rewrite E2; reflexivity| |right; exact HP].
      rewrite E2 in Htr. unfold trace in *; simpl in *. subst tr2.
      left. exists (tr1 ++ tr0), ev. split; [apply app_assoc|exact Hev].
    + unfold outcome in Hout; simpl in Hout. injection Hout as ->.
      destruct (IHp w e) as [[tr0 [ev [Htr Hev]]]|HP];
        [rewrite E1; reflexivity| |right; exact HP].
      rewrite E1 in Htr. left. eauto.
  - rewrite run_call in *. unfold outcome in Hout; simpl in Hout.
    left. exists [], (EvCall c (fst (lib A c w))). split; [reflexivity|].
    simpl. rewrite Hout. reflexivity.
  - discriminate.
  - unfold outcome in Hout; simpl in Hout. injection Hout as ->.
    right. exact He0.
Qed.

(** A command calls only what its text calls. *)
Lemma calls_only_trace (ok : forall B, libcall B -> bool) {A} (p : prog A) :
  calls_only ok p ->
  forall w, forallb (event_ok ok) (trace (run lib p w)) = true.
Proof.
  induction 1 as [A a|A B p k Hp IHp Hk IHk|A c Hc|s|A e0
                 |A body cls handler Hb IHb Hh IHh]; intros w.
  - reflexivity.
  - rewrite run_bind.
    specialize (IHp w).
    destruct (run lib p w) as [[[b|e1] w1] tr1].
    + specialize (IHk b w1).
      destruct (run lib (k b) w1) as [[r2 w2] tr2].
      unfold trace in *; simpl in *.
      rewrite forallb_app, IHp, IHk. reflexivity.
    + exact IHp.
  - rewrite run_call. unfold trace; simpl. rewrite Hc. reflexivity.
  - reflexivity.
  - reflexivity.
  - simpl. specialize (IHb w).
    destruct (run lib body w) as [[[b|e1] w1] tr1]; [exact IHb|].
    destruct (isinstance e1 cls); [|exact IHb].
    specialize (IHh w1).
    destruct (run lib handler w1) as [[r2 w2] tr2].
    unfold trace in *; simpl in *.
    rewrite forallb_app, IHb, IHh. reflexivity.
Qed.

Lemma plain_own_raises {A} (p : prog A) :
  plain p -> own_raises (fun _ => False) p.
Proof. induction 1; constructor; auto. Qed.
End MoreRunFacts.

Lemma printed_app (tr1 tr2 : list event) :
  printed (tr1 ++ tr2) = (printed tr1 ++ printed tr2)%list.
Proof.
  induction tr1 as [|[B c r|s] tr1 IH]; simpl; [reflexivity|exact IH|].
  rewrite IH. reflexivity.
Qed.

Lemma noises_app (tr1 tr2 : list event) :
  noises (tr1 ++ tr2) = (noises tr1 ++ noises tr2)%list.
Proof.
  induction tr1 as [|ev tr1 IH]; simpl; [reflexivity|].
  destruct (noise_of ev); rewrite IH; reflexivity.
Qed.

Lemma arima_orders_app (tr1 tr2 : list event) :
  ISP_TimeSeries.arima_orders (tr1 ++ tr2)
  = (ISP_TimeSeries.arima_orders tr1 ++ ISP_TimeSeries.arima_orders tr2)%list.
Proof.
  induction tr1 as [|ev tr1 IH]; simpl; [reflexivity|].
  destruct (ISP_TimeSeries.arima_order ev); rewrite IH; reflexivity.
Qed.

(** No [ARIMA] call, no order. *)
Lemma arima_orders_none (tr : list event) :
  forallb (event_ok not_ARIMA) tr = true ->
  ISP_TimeSeries.arima_orders tr = [].
Proof.
  induction tr as [|ev tr IH]; simpl; [reflexivity|].
  intros Hall. apply andb_prop in Hall as [Hev Htr].
  destruct ev as [B c r|s]; simpl in *; [|auto].
  destruct c; simpl in *; try discriminate; auto.
Qed.

(* ------------------------------------------------------------------ *)
(** * More of ISP_TimeSeries.py *)

Lemma simulate_ar2_calls_only (ok : forall B, libcall B -> bool) :
  ok _ (np_random_randn 1) = true ->
  forall n x, calls_only ok (ISP_TimeSeries.simulate_ar2 n x).
Proof.
  intros Hok. induction n as [|n IH]; intros x; simpl.
  - apply only_ret.
  - apply only_bind; [apply only_call; exact Hok|].
    intros noise. apply only_bind; [|intros e; apply IH].
    destruct noise as [|v [|v' noise]]; constructor.
Qed.

Lemma simulate_ar2_own_raises (n : nat) (x : list float) :
  own_raises only_size_1 (ISP_TimeSeries.simulate_ar2 n x).
Proof.
  revert x. induction n as [|n IH]; intros x; simpl.
  - apply own_ret.
  - apply own_bind; [apply own_call|].
    intros noise. apply own_bind; [|intros e; apply IH].
    destruct noise as [|v [|v' noise]]; constructor; reflexivity.
Qed.

Ltac prove_calls_only :=
  repeat first
    [ apply only_ret | apply only_print | apply only_raise
    | apply only_call; reflexivity
    | match goal with
      | |- calls_only _ (ISP_TimeSeries.simulate_ar2 _ _) =>
          apply simulate_ar2_calls_only; reflexivity
      | |- calls_only _ (match ?x with _ => _ end) => destruct x
      | |- calls_only _ (when ?b _) => destruct b
      end
    | apply only_bind; [|intros]
    | apply only_try
    | progress cbn ].

Ltac prove_own_raises :=
  repeat first
    [ apply own_ret | apply own_print | apply own_call
    | match goal with
      | |- own_raises _ (ISP_TimeSeries.simulate_ar2 _ _) =>
          apply simulate_ar2_own_raises
      | |- own_raises _ (match ?x with _ => _ end) => destruct x
      | |- own_raises _ (when ?b _) => destruct b
      end
    | apply own_bind; [|intros]
    | progress cbn ].

#[local] Arguments ISP_TimeSeries.simulate_ar2 : simpl never.

Section TimeSeriesMore.
Import ISP_TimeSeries.
Context {W : Type}.
Variable lib : forall B, libcall B -> W -> result B * W.

(** X1.  The guarded import has three outcomes.  When the import succeeds
    the module uses the Utilities' [showData]; when it raises an
    [ImportError] (or an exception of a subclass) the exception is taken
    back and the module falls back to its own definitions; any other
    exception leaves the guard as it came.  The import is tried once. *)
Theorem import_guard_cases (w : W) :
  let reply := lib unit import_ISP_mystyle w in
  run lib import_mystyle w
  = (match fst reply with
     | Returned _ => Returned FromUtilities
     | Raised e =>
         if isinstance e "ImportError" then Returned Fallback else Raised e
     end,
     snd reply,
     [EvCall import_ISP_mystyle (fst reply)]).
Proof.
  unfold import_mystyle, import_ISP_mystyle. simpl.
  destruct (lib unit (import_from "ISP_mystyle" ["setFonts"; "showData"]) w)
    as [[[]|e] w1]; simpl; [reflexivity|].
  destruct (isinstance e "ImportError"); reflexivity.
Qed.

Lemma run_import_fallback (w w1 : W) (e : exn) :
  lib unit import_ISP_mystyle w = (Raised e, w1) ->
  isinstance e "ImportError" = true ->
  run lib import_mystyle w
  = (Returned Fallback, w1, [EvCall import_ISP_mystyle (Raised e)]).
Proof.
  intros Hlib Hinst. unfold import_mystyle, import_ISP_mystyle in *. simpl.
  rewrite Hlib. simpl. rewrite Hinst. reflexivity.
Qed.

Lemma pipeline_fallback_calls_only :
  calls_only not_ISP_showData (pipeline Fallback).
Proof.
  unfold pipeline, get_CO2_data, acf_and_pacf, fit_ARIMA_models, fit_orders,
    fit_one, showData.
  prove_calls_only.
Qed.

(** X2.  Without the Utilities module the script still runs: when the
    import raises an [ImportError], [__main__] goes on to fetch the data
    with [pd.read_csv], runs the whole pipeline with the fallback, and
    never calls the [showData] that was not imported. *)
Theorem main_without_utilities (w w1 : W) (e : exn) :
  lib unit import_ISP_mystyle w = (Raised e, w1) ->
  isinstance e "ImportError" = true ->
  run lib main w
  = (let '(r, w2, tr) := run lib (pipeline Fallback) w1 in
     (r, w2, EvCall import_ISP_mystyle (Raised e) :: tr))
  /\ (exists r tr,
        trace (run lib main w)
        = EvCall import_ISP_mystyle (Raised e)
          :: EvCall
               (pd_read_csv
                  "https://www.esrl.noaa.gov/gmd/webdata/ccgg/trends/co2/co2_mm_mlo.txt"
                  53 true
                  ["year"; "month"; "time"; "co2"; "deseasoned";
                   "nr_days"; "std_days"; "uncertainty"]) r
          :: tr)
  /\ forallb (event_ok not_ISP_showData) (trace (run lib main w)) = true.
Proof.
  intros Hlib Hinst.
  assert (Hrun : run lib main w
                 = (let '(r, w2, tr) := run lib (pipeline Fallback) w1 in
                    (r, w2, EvCall import_ISP_mystyle (Raised e) :: tr))).
  { change main with (Bind import_mystyle pipeline).
    rewrite run_bind, (run_import_fallback w w1 e Hlib Hinst).
    destruct (run lib (pipeline Fallback) w1) as [[r w2] tr]. reflexivity. }
  split; [exact Hrun|]. rewrite Hrun. clear Hrun Hlib Hinst.
  pose proof (calls_only_trace lib not_ISP_showData (pipeline Fallback)
                pipeline_fallback_calls_only w1) as Hquiet.
  split.
  - clear Hquiet. unfold pipeline. rewrite run_bind.
    unfold get_CO2_data at 1. rewrite run_bind, run_call.
    destruct (lib pyobj
                (pd_read_csv
                   "https://www.esrl.noaa.gov/gmd/webdata/ccgg/trends/co2/co2_mm_mlo.txt"
                   53 true
                   ["year"; "month"; "time"; "co2"; "deseasoned";
                    "nr_days"; "std_days"; "uncertainty"]) w1)
      as [[df|e1] w2]; simpl fst; simpl snd; cbv iota beta.
    + match goal with
      | |- context [run lib ?p w2] =>
          destruct (run lib p w2) as [[[u|e2] w3] tr3]
      end.
      * match goal with
        | |- context [run lib ?p w3] =>
            destruct (run lib p w3) as [[r4 w4] tr4]
        end.
        unfold trace; simpl. eauto.
      * unfold trace; simpl. eauto.
    + unfold trace; simpl. eauto.
  - destruct (run lib (pipeline Fallback) w1) as [[r w2] tr].
    exact Hquiet.
Qed.
End TimeSeriesMore.

Lemma main_without_utilities_witness :
  let lib := Stub.lib Faults.no_utilities in
  let e := Stub.ModuleNotFoundError "No module named ISP_mystyle" in
  run lib ISP_TimeSeries.main 0%nat
  = (let '(r, w2, tr) := run lib (pipeline ISP_TimeSeries.Fallback) 1%nat in
     (r, w2, EvCall import_ISP_mystyle (Raised e) :: tr))
  /\ (exists r tr,
        trace (run lib ISP_TimeSeries.main 0%nat)
        = EvCall import_ISP_mystyle (Raised e)
          :: EvCall
               (pd_read_csv
                  "https://www.esrl.noaa.gov/gmd/webdata/ccgg/trends/co2/co2_mm_mlo.txt"
                  53 true
                  ["year"; "month"; "time"; "co2"; "deseasoned";
                   "nr_days"; "std_days"; "uncertainty"]) r
          :: tr)
  /\ forallb (event_ok not_ISP_showData)
       (trace (run lib ISP_TimeSeries.main 0%nat)) = true.
Proof.
  apply (main_without_utilities (Stub.lib Faults.no_utilities) 0%nat 1%nat
           (Stub.ModuleNotFoundError "No module named ISP_mystyle"));
    reflexivity.
Defined.

Section SimulationFacts.
Import ISP_TimeSeries.
Context {W : Type}.
Variable lib : forall B, libcall B -> W -> result B * W.

Lemma ar2_append_length (x : list float) (e : float) :
  List.length (ar2_append x e) = S (List.length x).
Proof. unfold ar2_append. rewrite length_app. simpl. lia. Qed.

(** The loop, run to its end, is the fold over the noise it drew. *)
Lemma simulate_ar2_run (n : nat) :
  forall (x y : list float) (w w' : W) (tr : list event),
    run lib (simulate_ar2 n x) w = (Returned y, w', tr) ->
    y = ar2_path x (noises tr) /\ List.length (noises tr) = n.
Proof.
  induction n as [|n IH]; intros x y w w' tr Hrun.
  - simpl in Hrun. injection Hrun as <- _ <-. split; reflexivity.
  - change (simulate_ar2 (S n) x)
      with (noise <- Call (np_random_randn 1) ;;
            e <- float_of_array noise ;;
            simulate_ar2 n (ar2_append x e)) in Hrun.
    rewrite run_bind, run_call in Hrun.
    destruct (lib ndarray (np_random_randn 1) w) as [[noise|e] w1];
      simpl fst in Hrun; simpl snd in Hrun; cbv iota beta in Hrun;
      [|discriminate].
    rewrite run_bind in Hrun.
    destruct noise as [|v [|v' noise]]; simpl in Hrun; try discriminate.
    destruct (run lib (simulate_ar2 n (ar2_append x v)) w1)
      as [[[y'|e] w2] tr2] eqn:E2; [|discriminate].
    injection Hrun as <- _ <-.
    destruct (IH _ _ _ _ _ E2) as [Hy Hlen].
    simpl. split; [exact Hy|]. rewrite Hlen. reflexivity.
Qed.

(** X3.  The simulation loop of [fit_ARIMA_models] keeps the recurrence
    [x[i] = x[i-1] - 0.5*x[i-2] + e]: started from a list [x] and run [n]
    times to the end, it returns [x] extended by one value per noise
    number drawn, each computed from the two values before it, so it drew
    exactly [n] numbers and the list grew by [n]. *)
Theorem simulate_ar2_follows_noise (n : nat) (x y : list float) (w : W) :
  outcome (run lib (simulate_ar2 n x) w) = Returned y ->
  let es := noises (trace (run lib (simulate_ar2 n x) w)) in
  y = ar2_path x es
  /\ List.length es = n
  /\ List.length y = (List.length x + n)%nat
  /\ firstn (List.length x) y = x.
Proof.
  intros Hout.
  destruct (run lib (simulate_ar2 n x) w) as [[r w'] tr] eqn:Hrun.
  unfold outcome, trace in *; simpl in *. subst r.
  destruct (simulate_ar2_run n x y w w' tr Hrun) as [Hy Hlen].
  split; [exact Hy|]. split; [exact Hlen|].
  subst y. rewrite <- Hlen. clear.
  generalize (noises tr) as es. intros es. revert x.
  induction es as [|e es IH]; intros x; simpl.
  - split; [lia|]. apply firstn_all.
  - destruct (IH (ar2_append x e)) as [Hlen Hpre].
    rewrite ar2_append_length in Hlen. split; [lia|].
    rewrite ar2_append_length in Hpre.
    assert (Hx : firstn (List.length x)
                   (firstn (S (List.length x))
                      (ar2_path (ar2_append x e) es))
                 = firstn (List.length x) (ar2_append x e))
      by (rewrite Hpre; reflexivity).
    rewrite firstn_firstn in Hx.
    replace (Nat.min (List.length x) (S (List.length x)))
      with (List.length x) in Hx by lia.
    rewrite Hx. unfold ar2_append.
    rewrite firstn_app, firstn_all, Nat.sub_diag. simpl.
    apply app_nil_r.
Qed.
End SimulationFacts.

Lemma simulate_ar2_follows_noise_witness :
  let y := ar2_path [0%float; 0%float] [0.25%float; 0.25%float; 0.25%float] in
  let x := run (Stub.lib Stub.healthy)
             (ISP_TimeSeries.simulate_ar2 3 [0%float; 0%float]) 0%nat in
  y = ar2_path [0%float; 0%float] (noises (trace x))
  /\ List.length (noises (trace x)) = 3%nat
  /\ List.length y = (2 + 3)%nat
  /\ firstn 2 y = [0%float; 0%float].
Proof.
  apply (simulate_ar2_follows_noise (Stub.lib Stub.healthy) 3
           [0%float; 0%float]
           (ar2_path [0%float; 0%float] [0.25%float; 0.25%float; 0.25%float])
           0%nat).
  vm_compute. reflexivity.
Defined.

Section FitFacts.
Import ISP_TimeSeries.
Context {W : Type}.
Variable lib : forall B, libcall B -> W -> result B * W.

Lemma fit_ARIMA_models_own_raises (sd : pyobj) :
  own_raises only_size_1 (fit_ARIMA_models sd).
Proof.
  unfold fit_ARIMA_models, fit_orders, fit_one. prove_own_raises.
Qed.

(** X4.  How [fit_ARIMA_models] fails.  An exception raised by a library
    call ends the function at that call and is its outcome; and whatever
    the function raises either came out of its last library call or is
    the [TypeError] of [float()] on a [randn] answer that is not a single
    number. *)
Theorem fit_ARIMA_models_failures (sd : pyobj) (w : W) :
  let x := run lib (fit_ARIMA_models sd) w in
  (forall ev e, In ev (trace x) -> raised_in ev = Some e ->
     outcome x = Raised e /\ exists tr0, trace x = tr0 ++ [ev])
  /\ (forall e, outcome x = Raised e ->
        (exists tr0 ev, trace x = tr0 ++ [ev] /\ raised_in ev = Some e)
        \/ e = TypeError
                 "only size-1 arrays can be converted to Python scalars").
Proof.
  split.
  - intros ev e.
    apply (own_raise_is_last lib only_size_1), fit_ARIMA_models_own_raises.
  - intros e.
    apply (own_raise_origin lib only_size_1), fit_ARIMA_models_own_raises.
Qed.

Lemma fit_orders_run (sd : pyobj) (w w1 : W) (u : unit) (tr1 : list event) :
  run lib (fit_orders sd) w = (Returned u, w1, tr1) ->
  arima_orders tr1 = [(1, 0, 1); (1, 0, 1)]%nat /\ noises tr1 = [].
Proof.
  unfold fit_orders, orders, fit_one. simpl.
  repeat (next_reply lib; try (intros; discriminate)).
  intros Heq. inversion Heq; subst. split; reflexivity.
Qed.

(** X5.  A complete run of [fit_ARIMA_models] builds four models, of
    orders (1,0,1), (1,0,1), (2,0,0) and (2,0,2) in that order; it draws
    200 noise numbers, and the third model is built on the series the
    simulation loop made of them from the start [0, 0]. *)
Theorem fit_ARIMA_models_complete (sd : pyobj) (w : W) :
  outcome (run lib (fit_ARIMA_models sd) w) = Returned tt ->
  let tr := trace (run lib (fit_ARIMA_models sd) w) in
  arima_orders tr = [(1, 0, 1); (1, 0, 1); (2, 0, 0); (2, 0, 2)]%nat
  /\ List.length (noises tr) = 200%nat
  /\ exists m,
       In (EvCall
             (ARIMA (OfArray (ar2_path [0%float; 0%float] (noises tr)))
                (2, 0, 0)%nat None)
             (Returned m)) tr.
Proof.
  unfold fit_ARIMA_models. rewrite run_bind.
  destruct (run lib (fit_orders sd) w) as [[[u|e] w1] tr1] eqn:E1;
    [|intros; discriminate].
  destruct (fit_orders_run sd w w1 u tr1 E1) as [Ho1 Hn1].
  rewrite run_bind. simpl (run lib (Print _) w1). cbv iota beta.
  rewrite run_bind.
  destruct (run lib (simulate_ar2 200 [0%float; 0%float]) w1)
    as [[[x|e] w2] tr2] eqn:E2; [|intros; discriminate].
  destruct (simulate_ar2_run lib 200 _ _ _ _ _ E2) as [Hx Hn2].
  pose proof (calls_only_trace lib not_ARIMA _
                (simulate_ar2_calls_only not_ARIMA eq_refl 200
                   [0%float; 0%float]) w1) as Ho2.
  rewrite E2 in Ho2. unfold trace in Ho2; simpl in Ho2.
  apply arima_orders_none in Ho2.
  unfold outcome, trace. simpl.
  repeat (next_reply lib; try (intros; discriminate)).
  intros _.
  repeat rewrite ?arima_orders_app, ?noises_app.
  rewrite Ho1, Hn1. simpl. rewrite ?arima_orders_app, ?noises_app.
  rewrite Ho2. simpl. rewrite app_nil_r.
  split; [reflexivity|]. split; [exact Hn2|].
  eexists. apply in_or_app. right. right. apply in_or_app. right.
  rewrite <- Hx. find_event.
Qed.
End FitFacts.

Lemma fit_ARIMA_models_failures_witness :
  let x := run Faults.empty_noise
             (ISP_TimeSeries.fit_ARIMA_models (PyObj 3)) 0%nat in
  let e := TypeError
             "only size-1 arrays can be converted to Python scalars" in
  (exists tr0 ev, trace x = tr0 ++ [ev] /\ raised_in ev = Some e)
  \/ e = TypeError "only size-1 arrays can be converted to Python scalars".
Proof.
  apply (proj2 (fit_ARIMA_models_failures Faults.empty_noise (PyObj 3) 0%nat)).
  vm_compute. reflexivity.
Defined.

Lemma fit_ARIMA_models_complete_witness :
  let tr := trace (run (Stub.lib Stub.healthy)
                     (ISP_TimeSeries.fit_ARIMA_models (PyObj 3)) 0%nat) in
  ISP_TimeSeries.arima_orders tr
  = [(1, 0, 1); (1, 0, 1); (2, 0, 0); (2, 0, 2)]%nat
  /\ List.length (noises tr) = 200%nat
  /\ exists m,
       In (EvCall
             (ARIMA (OfArray (ar2_path [0%float; 0%float] (noises tr)))
                (2, 0, 0)%nat None)
             (Returned m)) tr.
Proof.
  apply (fit_ARIMA_models_complete (Stub.lib Stub.healthy) (PyObj 3) 0%nat).
  vm_compute. reflexivity.
Defined.

Lemma acf_and_pacf_returns_decomposition_witness :
  exists co2,
    firstn 2 (trace (run (Stub.lib Stub.healthy)
                       (ISP_TimeSeries.acf_and_pacf ISP_TimeSeries.Fallback
                          (PyObj 9)) 0%nat))
    = [EvCall (df_getitem (PyObj 9) "co2") (Returned co2);
       EvCall (seasonal_decompose co2 "additive" 12 "freq")
         (Returned (PyObj 3))].
Proof.
  apply (acf_and_pacf_returns_decomposition (Stub.lib Stub.healthy)
           ISP_TimeSeries.Fallback (PyObj 9) (PyObj 3) 0%nat).
  reflexivity.
Defined.

Lemma acf_and_pacf_plain (st : ISP_TimeSeries.style) (df : pyobj) :
  plain (ISP_TimeSeries.acf_and_pacf st df).
Proof.
  unfold ISP_TimeSeries.acf_and_pacf, ISP_TimeSeries.showData.
  destruct st; prove_plain.
Qed.

(** X7.  [acf_and_pacf] and [compareWithNormal] take no exception back
    either: an exception raised by a library call (a frame without the
    column [co2], a failing decomposition or plot, a failing test or
    distribution call) is the outcome of the function and the raising call
    is the last thing it does; and they raise nothing of their own. *)
Theorem acf_and_compare_propagate `{Formatter} :
  (forall st df, propagates_uncaught (ISP_TimeSeries.acf_and_pacf st df))
  /\ propagates_uncaught ISP_oneGroup.compareWithNormal.
Proof.
  split.
  - intros st df. apply plain_propagates, acf_and_pacf_plain.
  - apply plain_propagates, compareWithNormal_plain.
Qed.

Lemma acf_and_compare_propagate_witness :
  let lib := Stub.lib Faults.bad_input in
  (outcome (run lib (ISP_TimeSeries.acf_and_pacf ISP_TimeSeries.Fallback
                       (PyObj 9)) 0%nat)
   = Raised (KeyError "co2")
   /\ exists tr0,
        trace (run lib (ISP_TimeSeries.acf_and_pacf ISP_TimeSeries.Fallback
                          (PyObj 9)) 0%nat)
        = tr0 ++ [EvCall (df_getitem (PyObj 9) "co2")
                    (Raised (KeyError "co2"))])
  /\ exists tr0 ev,
       trace (run lib (@ISP_oneGroup.compareWithNormal Stub.formatter) 0%nat)
       = tr0 ++ [ev]
       /\ raised_in ev = Some (Stub.ValueError "scale must be positive").
Proof.
  pose proof (@acf_and_compare_propagate Stub.formatter) as [Ha Hc].
  split.
  - apply (proj1 (Ha ISP_TimeSeries.Fallback (PyObj 9) nat
                    (Stub.lib Faults.bad_input) 0%nat)).
    + left. reflexivity.
    + reflexivity.
  - apply (proj2 (Hc nat (Stub.lib Faults.bad_input) 0%nat)).
    reflexivity.
Defined.

(* ------------------------------------------------------------------ *)
(** * More of ISP_checkNormality.py and ISP_oneGroup.py *)

(** Stepping through a command, keeping what each test came to. *)
Ltac next_step lib :=
  first
    [ next_call lib
    | match goal with
      | |- context [when ?b _] => destruct b eqn:?; simpl
      end ];
  repeat match goal with
         | r : (_ * _)%type |- _ => destruct r; simpl
         | r : unit |- _ => destruct r
         end.

Ltac use_tests :=
  repeat match goal with
         | H : PrimFloat.ltb _ _ = _ |- _ => rewrite ?H; clear H
         end.

Lemma split_at (k : nat) (tr rest : list event) :
  skipn k tr = rest -> tr = firstn k tr ++ rest.
Proof. intros <-. symmetry. apply firstn_skipn. Qed.

Section QuietFacts.
Context `{Formatter}.
Context {W : Type}.
Variable lib : forall B, libcall B -> W -> result B * W.

Lemma check_normality_headless_calls :
  calls_only headless (ISP_checkNormality.check_normality false).
Proof. unfold ISP_checkNormality.check_normality. prove_calls_only. Qed.

Lemma check_mean_headless_calls : calls_only headless ISP_oneGroup.check_mean.
Proof. unfold ISP_oneGroup.check_mean. prove_calls_only. Qed.

Lemma compareWithNormal_headless_calls :
  calls_only headless ISP_oneGroup.compareWithNormal.
Proof. unfold ISP_oneGroup.compareWithNormal. prove_calls_only. Qed.

(** X8.  With [show_flag] false [check_normality] draws nothing: whatever
    the libraries answer and however far the run gets, it makes no call
    to matplotlib or to pingouin's [qqplot].  Neither do [check_mean] and
    [compareWithNormal]. *)
Theorem no_figure_without_show_flag (w : W) :
  forallb (event_ok headless)
    (trace (run lib (ISP_checkNormality.check_normality false) w)) = true
  /\ forallb (event_ok headless)
       (trace (run lib ISP_oneGroup.check_mean w)) = true
  /\ forallb (event_ok headless)
       (trace (run lib ISP_oneGroup.compareWithNormal w)) = true.
Proof.
  split; [|split]; apply calls_only_trace.
  - apply check_normality_headless_calls.
  - apply check_mean_headless_calls.
  - apply compareWithNormal_headless_calls.
Qed.

(** X10.  What a complete run of [check_normality] prints: the heading
    with the sample size, the table of the whole sample, the heading of
    the first 100 points, their table, and then the line
    [Data are normally distributed] exactly when the omnibus p-value of
    the whole sample is above 0.05; no other test and not the subsample
    decide it, and a p-value that is not a number prints no line. *)
Theorem check_normality_message (show_flag : bool) (w : W) (v : sval) :
  let x := run lib (ISP_checkNormality.check_normality show_flag) w in
  outcome x = Returned v ->
  exists data t p s1 s2,
    nth_error (trace x) 1
    = Some (EvCall (stats_norm_rvs 0 3 1000) (Returned data))
    /\ nth_error (trace x) (if show_flag then 6 else 2)
       = Some (EvCall (stats_normaltest data) (Returned (t, p)))
    /\ printed (trace x)
       = (["p-values for all " ++ format_int "" (len data)
           ++ " data points: ----------------";
           s1;
           "p-values for the first 100 data points: ----------------";
           s2]%string
          ++ if PrimFloat.ltb 0.05 p
             then ["Data are normally distributed"]
             else [])%list.
Proof.
  unfold outcome, trace, ISP_checkNormality.check_normality.
  destruct show_flag; simpl;
    repeat (next_step lib; try (intros; discriminate));
    intros _; do 5 eexists;
    (split; [reflexivity|split; [reflexivity|]]);
    simpl; use_tests; reflexivity.
Qed.

(** X11.  A complete run of [check_mean] ends with the Wilcoxon test on
    [data - 7725] and the verdict line, which says [unlikely] exactly when
    the Wilcoxon p-value is below 0.05; the value returned is the p-value
    of the t-test, which only decides whether the extra line about a
    significant difference is printed.  The verdict and the returned value
    come from different tests. *)
Theorem check_mean_verdict (w : W) (prob : float) :
  let x := run lib ISP_oneGroup.check_mean w in
  outcome x = Returned prob ->
  exists data rank pVal before,
    nth_error (trace x) 0
    = Some (EvCall (np_genfromtxt "altman_91.txt" ",") (Returned data))
    /\ trace x
       = before
         ++ [EvCall (stats_wilcoxon (arr_sub_scalar data 7725))
               (Returned (rank, pVal));
             EvOut ("It is "
                    ++ (if PrimFloat.ltb pVal 0.05 then "unlikely"
                        else "likely")
                    ++ " that the value is " ++ format_int "d" 7725)]
    /\ List.length (printed before)
       = if PrimFloat.ltb prob 0.05 then 3%nat else 2%nat.
Proof.
  unfold outcome, trace, ISP_oneGroup.check_mean. simpl.
  repeat (next_step lib; try (intros; discriminate));
    intros [= <-]; do 4 eexists;
    (split; [reflexivity|split]);
    first [ apply (split_at 12); reflexivity
          | apply (split_at 11); reflexivity
          | simpl; use_tests; reflexivity ].
Qed.
End QuietFacts.

Lemma check_normality_message_witness :
  let x := run (Stub.lib Stub.healthy)
             (@ISP_checkNormality.check_normality Stub.formatter false)
             0%nat in
  exists data t p s1 s2,
    nth_error (trace x) 1
    = Some (EvCall (stats_norm_rvs 0 3 1000) (Returned data))
    /\ nth_error (trace x) 2
       = Some (EvCall (stats_normaltest data) (Returned (t, p)))
    /\ printed (trace x)
       = (["p-values for all " ++ @format_int Stub.formatter "" (len data)
           ++ " data points: ----------------";
           s1;
           "p-values for the first 100 data points: ----------------";
           s2]%string
          ++ if PrimFloat.ltb 0.05 p
             then ["Data are normally distributed"]
             else [])%list.
Proof.
  apply (@check_normality_message Stub.formatter nat (Stub.lib Stub.healthy)
           false 0%nat (SFloat 0.75)).
  reflexivity.
Defined.

Lemma check_mean_verdict_witness :
  let x := run (Stub.lib Stub.healthy)
             (@ISP_oneGroup.check_mean Stub.formatter) 0%nat in
  exists data rank pVal before,
    nth_error (trace x) 0
    = Some (EvCall (np_genfromtxt "altman_91.txt" ",") (Returned data))
    /\ trace x
       = before
         ++ [EvCall (stats_wilcoxon (arr_sub_scalar data 7725))
               (Returned (rank, pVal));
             EvOut ("It is "
                    ++ (if PrimFloat.ltb pVal 0.05 then "unlikely"
                        else "likely")
                    ++ " that the value is "
                    ++ @format_int Stub.formatter "d" 7725)]
    /\ List.length (printed before)
       = if PrimFloat.ltb (PrimFloat.div 0.02 2) 0.05 then 3%nat else 2%nat.
Proof.
  apply (@check_mean_verdict Stub.formatter nat (Stub.lib Stub.healthy)
           0%nat (PrimFloat.div 0.02 2)).
  reflexivity.
Defined.

Lemma check_mean_returns_ttest_pvalue_witness :
  let x := run (Stub.lib Stub.healthy)
             (@ISP_oneGroup.check_mean Stub.formatter) 0%nat in
  exists data t,
    trace x
    = EvCall (np_genfromtxt "altman_91.txt" ",") (Returned data)
      :: skipn 1 (trace x)
    /\ In (EvCall (stats_ttest_1samp data 7725)
             (Returned (t, PrimFloat.div 0.02 2)))
         (trace x).
Proof.
  apply (@check_mean_returns_ttest_pvalue Stub.formatter nat
           (Stub.lib Stub.healthy) 0%nat (PrimFloat.div 0.02 2)).
  reflexivity.
Defined.

(* ------------------------------------------------------------------ *)
(** * explain_power *)

Module ExactPowerFacts.
Import Exact ExactPower.
Local Open Scope R_scope.

(** Quantiles of a symmetric distribution mirror each other. *)
Lemma ppf_mirror (rv : rv_frozen) (q : R) :
  symmetric_continuous rv -> cdf_injective rv -> 0 < q < 1 ->
  ppf rv (1 - q) = - ppf rv q.
Proof.
  intros Hs Hinj Hq. apply Hinj.
  rewrite (cdf_sym rv Hs), (cdf_ppf rv Hs q Hq).
  apply (cdf_ppf rv Hs). lra.
Qed.

Lemma student_t1_cdf_injective : cdf_injective student_t1.
Proof.
  intros x y Hxy. simpl in Hxy.
  assert (Ha : atan x = atan y).
  { pose proof PI_RGT_0 as Hpi.
    apply (Rmult_eq_reg_r (/ PI)); [|apply Rinv_neq_0_compat; lra].
    unfold Rdiv in Hxy. lra. }
  rewrite <- (tan_atan x), <- (tan_atan y), Ha. reflexivity.
Qed.

Lemma sem_pos_std_pos (data : list R) :
  0 < sem data -> 0 < std data 1 /\ 0 < sqrt (INR (List.length data)).
Proof.
  intros Hsem.
  pose proof (ExactFacts.sem_pos_two_values data Hsem) as Hlen.
  assert (Hn : 0 < sqrt (INR (List.length data))).
  { apply sqrt_lt_R0. apply lt_0_INR. lia. }
  split; [|exact Hn].
  unfold sem in Hsem.
  replace (std data 1)
    with (std data 1 / sqrt (INR (List.length data))
          * sqrt (INR (List.length data))) by (field; lra).
  apply Rmult_lt_0_compat; assumption.
Qed.

(** X12.  In [explain_power] the t value is the effect size scaled by the
    root of the sample size: [t_val = d * sqrt(len(data))], whenever the
    standard error is positive. *)
Theorem t_val_is_scaled_effect_size
  (stats_t : Z -> rv_frozen) (stats_nct : Z -> R -> rv_frozen)
  (data : list R) :
  0 < sem data ->
  t_val (explain_power stats_t stats_nct data)
  = d (explain_power stats_t stats_nct data)
    * sqrt (INR (List.length data)).
Proof.
  intros Hsem. destruct (sem_pos_std_pos data Hsem) as [Hstd Hn].
  simpl. unfold sem. field. lra.
Qed.

Lemma t_val_is_scaled_effect_size_witness :
  t_val (explain_power stats_t_pairs stats_nct_pairs two_points)
  = d (explain_power stats_t_pairs stats_nct_pairs two_points)
    * sqrt (INR (List.length two_points)).
Proof.
  apply (t_val_is_scaled_effect_size stats_t_pairs stats_nct_pairs two_points).
  apply ExactFacts.nonconstant_sem_pos.
  exists 1, 3. simpl. repeat split; auto. lra.
Defined.

(** X13.  The interval [explain_power] stores under [ci], the 2.5% and
    97.5% quantiles of the t distribution moved to the sample mean and
    scaled by the standard error, is the interval [check_mean] builds for
    the same sample. *)
Theorem explain_power_ci_is_check_mean_ci
  (stats_t : Z -> rv_frozen) (stats_nct : Z -> R -> rv_frozen)
  (data : list R) :
  symmetric_continuous (tf stats_t data) ->
  cdf_injective (tf stats_t data) ->
  ExactPower.ci (explain_power stats_t stats_nct data) = Exact.ci stats_t data.
Proof.
  intros Hs Hinj. unfold Exact.ci, tf in *. simpl.
  replace (1 - 5 / 100 / 2) with quantile_level
    by (unfold quantile_level; lra).
  replace (5 / 100 / 2) with (1 - quantile_level)
    by (unfold quantile_level; lra).
  rewrite (ppf_mirror _ quantile_level Hs Hinj)
    by (pose proof ExactFacts.quantile_level_range; lra).
  f_equal; ring.
Qed.

Lemma explain_power_ci_is_check_mean_ci_witness :
  ExactPower.ci (explain_power stats_t_pairs stats_nct_pairs two_points)
  = Exact.ci stats_t_pairs two_points.
Proof.
  apply (explain_power_ci_is_check_mean_ci stats_t_pairs stats_nct_pairs
           two_points).
  - exact ExactFacts.student_t1_symmetric_continuous.
  - exact student_t1_cdf_injective.
Defined.

(** X14.  [p_val = stats.t(dof).sf(t_val)*2] doubles one tail without
    taking the absolute value of the t value: it is at most 1 when the
    sample mean is at least [c = 6.5], and at least 1 when the sample mean
    is at most 6.5. *)
Theorem p_val_one_tail_doubled
  (stats_t : Z -> rv_frozen) (stats_nct : Z -> R -> rv_frozen)
  (data : list R) :
  symmetric_continuous (stats_t 99%Z) ->
  0 < sem data ->
  (65 / 10 <= mean data ->
   p_val (explain_power stats_t stats_nct data) <= 1)
  /\ (mean data <= 65 / 10 ->
      1 <= p_val (explain_power stats_t stats_nct data)).
Proof.
  intros Hs Hsem. pose proof (ExactFacts.cdf_at_zero _ Hs) as H0.
  simpl. unfold sf. split; intros Hm.
  - assert (Ht : 0 <= (mean data - 65 / 10) / sem data).
    { apply Rmult_le_pos; [lra|]. left. apply Rinv_0_lt_compat. exact Hsem. }
    pose proof (cdf_mono _ Hs _ _ Ht). lra.
  - assert (Ht : (mean data - 65 / 10) / sem data <= 0).
    { replace 0 with (0 * / sem data) by ring.
      apply Rmult_le_compat_r; [|lra].
      left. apply Rinv_0_lt_compat. exact Hsem. }
    pose proof (cdf_mono _ Hs _ _ Ht). lra.
Qed.

Lemma p_val_one_tail_doubled_witness :
  1 <= p_val (explain_power stats_t_pairs stats_nct_pairs two_points).
Proof.
  apply (p_val_one_tail_doubled stats_t_pairs stats_nct_pairs two_points).
  - exact ExactFacts.student_t1_symmetric_continuous.
  - apply ExactFacts.nonconstant_sem_pos.
    exists 1, 3. simpl. repeat split; auto. lra.
  - unfold mean, two_points. simpl. lra.
Defined.

(** X15.  The power [explain_power] computes, [nct.sf(tc) + nct.cdf(-tc)],
    is one minus the probability that the noncentral statistic falls
    within the critical values, and it never exceeds 1: the critical value
    [tc] is positive, so the two rejection regions do not overlap. *)
Theorem power_at_most_one
  (stats_t : Z -> rv_frozen) (stats_nct : Z -> R -> rv_frozen)
  (data : list R) :
  symmetric_continuous (stats_t 99%Z) ->
  (forall x y, x <= y ->
     cdf (stats_nct 99%Z ((mean data - 65 / 10) / sem data)) x
     <= cdf (stats_nct 99%Z ((mean data - 65 / 10) / sem data)) y) ->
  0 < critical_value stats_t
  /\ power (explain_power stats_t stats_nct data)
     = 1 - two_sided_level
             (stats_nct 99%Z ((mean data - 65 / 10) / sem data))
             (critical_value stats_t)
  /\ power (explain_power stats_t stats_nct data) <= 1.
Proof.
  intros Hs Hmono.
  assert (Htc : 0 < critical_value stats_t).
  { unfold critical_value, isf. apply (ExactFacts.ppf_pos _ _ Hs). lra. }
  split; [exact Htc|].
  simpl. unfold sf, two_sided_level.
  change (isf (stats_t 99%Z) (5 / 100 / 2)) with (critical_value stats_t).
  split; [ring|].
  assert (Hle : - critical_value stats_t <= critical_value stats_t) by lra.
  pose proof (Hmono _ _ Hle). lra.
Qed.

Lemma power_at_most_one_witness :
  0 < critical_value stats_t_pairs
  /\ power (explain_power stats_t_pairs stats_nct_pairs two_points)
     = 1 - two_sided_level
             (stats_nct_pairs 99%Z
                ((mean two_points - 65 / 10) / sem two_points))
             (critical_value stats_t_pairs)
  /\ power (explain_power stats_t_pairs stats_nct_pairs two_points) <= 1.
Proof.
  apply (power_at_most_one stats_t_pairs stats_nct_pairs two_points).
  - exact ExactFacts.student_t1_symmetric_continuous.
  - intros x y Hxy. simpl.
    apply (cdf_mono _ ExactFacts.student_t1_symmetric_continuous).
    lra.
Defined.
End ExactPowerFacts.
